(** * play-sound.py: the cross-platform notification script

    A shallow embedding of [src/defaults/skills/play-sound/scripts/play-sound.py].

    The script only talks to its host: it probes files, spawns players,
    imports [winsound] and prints a bell.  Each of these calls is recorded as
    an [event] in a trace, and its outcome (a value, or a raised Python
    exception) is read from a [world] describing the host.  The functions of
    the script are then ordinary Rocq functions in a small trace-and-exception
    monad, and the properties of the script are statements about the trace
    and the outcome they produce.  For what leaves [main] and for the exit
    status, the script is run a second time, in [Interruptible], on a host
    that can also deliver Ctrl-C and that answers the flush at exit. *)

From Stdlib Require Import ZArith Ascii String.
From stdpp Require Import base option strings list gmap.

Local Open Scope string_scope.
Local Open Scope Z_scope.
Local Open Scope list_scope.

(** ** Python exceptions *)

(** The exception classes that the calls of the script raise by themselves.
    All of them derive from [Exception].  [KeyboardInterrupt], which does not,
    is raised by the interpreter when Ctrl-C arrives, not by these calls: it
    is added to these classes in [Interruptible] below, where the script is
    run with interrupts and up to the end of its process. *)
Inductive exn : Type :=
| OSError
| FileNotFoundError
| PermissionError
| BrokenPipeError
| ImportError
| ModuleNotFoundError
| RuntimeError
| ValueError
| KeyError
| IndexError.

#[global] Instance exn_eq_dec : EqDecision exn.
Proof. solve_decision. Defined.

(** The classes an [except] clause of the script names. *)
Inductive exn_class : Type :=
| Class (c : exn)
| Exception
| BaseException.

(** The direct base class, as in Python's built-in hierarchy. *)
Definition base_class (e : exn) : exn_class :=
  match e with
  | FileNotFoundError | PermissionError | BrokenPipeError => Class OSError
  | ModuleNotFoundError => Class ImportError
  | OSError | ImportError | RuntimeError | ValueError => Exception
  | KeyError | IndexError => Exception (* through LookupError *)
  end.

(** [isinstance e c]: an exception of class [e] is caught by [except c]. *)
Definition isinstance (e : exn) (c : exn_class) : bool :=
  match c with
  | BaseException | Exception => true
  | Class k =>
      bool_decide (e = k) ||
      match base_class e with
      | Class b => bool_decide (b = k)
      | _ => false
      end
  end.

#[global] Arguments isinstance : simpl never.

(** ** The host *)

(** What a call does to the host, in the order of the calls. *)
Inductive event : Type :=
| EExists (path : string)
    (* os.path.exists(path) *)
| ERun (argv : list string)
    (* subprocess.run(argv, check=False, stdout=DEVNULL, stderr=DEVNULL) *)
| EImport (module : string)
    (* import module *)
| EBeep (frequency duration : Z)
    (* winsound.Beep(frequency, duration) *)
| EMessageBeep
    (* winsound.MessageBeep() *)
| EPrint (text : string) (end_ : string) (flush : bool).
    (* print(text, end=end_, flush=flush) *)

#[global] Instance event_eq_dec : EqDecision event.
Proof. solve_decision. Defined.

(** The host answers every call: [None] is a call that came back, [Some e] a
    call that raised [e].  With [check=False] a player that ran and failed
    still comes back, so [host_run] raises only when the process could
    not be started.  [host_import_winsound n] answers the import statement that
    is executed after [n] earlier ones. *)
Record world : Type := {
  host_system : string;
  host_exists : string → bool;
  host_run : list string → option exn;
  host_import_winsound : nat → option exn;
  host_Beep : Z → Z → option exn;
  host_MessageBeep : option exn;
  host_print : string → option exn
}.

(** ** Computations *)

Inductive outcome (A : Type) : Type :=
| Ret (a : A)
| Raise (e : exn).
Arguments Ret {A} a.
Arguments Raise {A} e.

(** A computation reads the host, extends the trace and returns or raises. *)
Definition io (A : Type) : Type := world → list event → outcome A * list event.

#[global] Instance io_ret : MRet io := λ A a _ tr, (Ret a, tr).

#[global] Instance io_bind : MBind io := λ A B f m w tr,
  match m w tr with
  | (Ret a, tr') => f a w tr'
  | (Raise e, tr') => (Raise e, tr')
  end.

(** One call on the host: the event is recorded, then the answer decides. *)
Definition call {A} (ev : event) (answer : world → outcome A) : io A :=
  λ w tr, (answer w, tr ++ [ev]).

Definition of_option (o : option exn) : outcome () :=
  match o with
  | None => Ret ()
  | Some e => Raise e
  end.

(** [try: body except c: handler] *)
Definition try_except {A} (body : io A) (c : exn_class) (handler : io A) : io A :=
  λ w tr,
    match body w tr with
    | (Ret a, tr') => (Ret a, tr')
    | (Raise e, tr') =>
        if isinstance e c then handler w tr' else (Raise e, tr')
    end.

(** [try: body except: handler], the bare clause, which catches everything. *)
Definition try_except_all {A} (body : io A) (handler : io A) : io A :=
  try_except body BaseException handler.

Definition is_import (ev : event) : bool :=
  match ev with
  | EImport _ => true
  | _ => false
  end.

Definition imports_so_far (tr : list event) : nat :=
  length (List.filter is_import tr).

(** ** The library calls of the script *)

Definition platform_system : io string :=
  λ w tr, (Ret (host_system w), tr).

Definition os_path_exists (path : string) : io bool :=
  call (EExists path) (λ w, Ret (host_exists w path)).

(** [subprocess.run(argv, check=False, stdout=DEVNULL, stderr=DEVNULL)]; the
    completed process it returns is dropped by every caller. *)
Definition subprocess_run (argv : list string) : io () :=
  call (ERun argv) (λ w, of_option (host_run w argv)).

Definition import_winsound : io () :=
  λ w tr, (of_option (host_import_winsound w (imports_so_far tr)),
           tr ++ [EImport "winsound"]).

Definition winsound_Beep (frequency duration : Z) : io () :=
  call (EBeep frequency duration) (λ w, of_option (host_Beep w frequency duration)).

Definition winsound_MessageBeep : io () :=
  call EMessageBeep (λ w, of_option (host_MessageBeep w)).

Definition print (text end_ : string) (flush : bool) : io () :=
  call (EPrint text end_ flush) (λ w, of_option (host_print w (text +:+ end_))).

(** The one-character string the script writes as ['\a']. *)
Definition BEL : string := String "007"%char EmptyString.

(** [d[k]] and [d.get(k, dflt)] on a dict with string keys. *)
Definition getitem {V} (d : gmap string V) (k : string) : io V :=
  λ _ tr,
    match d !! k with
    | Some v => (Ret v, tr)
    | None => (Raise KeyError, tr)
    end.

Definition dict_get {V} (d : gmap string V) (k : string) (dflt : V) : V :=
  default dflt (d !! k).

(** [l[i]] on a list. *)
Definition list_getitem {V} (l : list V) (i : nat) : io V :=
  λ _ tr,
    match l !! i with
    | Some v => (Ret v, tr)
    | None => (Raise IndexError, tr)
    end.

(** [os.path.join(a, b)] of [posixpath], the [os.path] of a Linux host. *)
Definition startswith_sep (s : string) : bool :=
  match s with
  | String c _ => bool_decide (c = "/"%char)
  | EmptyString => false
  end.

Fixpoint endswith_sep (s : string) : bool :=
  match s with
  | EmptyString => false
  | String c EmptyString => bool_decide (c = "/"%char)
  | String _ s' => endswith_sep s'
  end.

Definition os_path_join (a b : string) : string :=
  if startswith_sep b then b
  else if bool_decide (a = EmptyString) || endswith_sep a then a +:+ b
  else a +:+ "/" +:+ b.

(** ** The script *)

(** A loop body of [play_sound_linux] either falls through to the next
    iteration or executes the [return] of the function. *)
Inductive flow : Type :=
| Next
| Return.

(** The [sound_map] of [play_sound_macos]. *)
Definition macos_sound_map : gmap string string :=
  {[ "success" := "/System/Library/Sounds/Hero.aiff";
     "prompt" := "/System/Library/Sounds/Blow.aiff" ]}.

Definition play_sound_macos (sound_type : string) : io () :=
  dflt ← getitem macos_sound_map "prompt";
  let sound_file := dict_get macos_sound_map sound_type dflt in
  try_except
    (subprocess_run ["afplay"; sound_file])
    (Class FileNotFoundError)
    (subprocess_run ["osascript"; "-e"; "beep 1"]).

Definition sound_paths : list string :=
  [ "/usr/share/sounds/freedesktop/stereo/";
    "/usr/share/sounds/ubuntu/stereo/";
    "/usr/share/sounds/gnome/default/alerts/" ].

(** The [sound_map] of [play_sound_linux]. *)
Definition linux_sound_map : gmap string (list string) :=
  {[ "success" := ["complete.oga"; "message.oga"; "glass.oga"];
     "prompt" := ["dialog-warning.oga"; "message-new-instant.oga"; "bell.oga"] ]}.

(** The body of [if os.path.exists(full_path):], lines 52-64. *)
Definition try_players (full_path : string) : io flow :=
  try_except
    (subprocess_run ["paplay"; full_path];; mret Return)
    (Class FileNotFoundError)
    (try_except
       (subprocess_run ["aplay"; "-q"; full_path];; mret Return)
       (Class FileNotFoundError)
       (mret Next)).

(** [for sound_file in sounds:] *)
Fixpoint for_sound_file (base_path : string) (sounds : list string) : io flow :=
  match sounds with
  | [] => mret Next
  | sound_file :: sounds' =>
      let full_path := os_path_join base_path sound_file in
      found ← os_path_exists full_path;
      fl ← (if found : bool then try_players full_path else mret Next);
      match fl with
      | Return => mret Return
      | Next => for_sound_file base_path sounds'
      end
  end.

(** [for base_path in sound_paths:] *)
Fixpoint for_base_path (paths : list string) (sounds : list string) : io flow :=
  match paths with
  | [] => mret Next
  | base_path :: paths' =>
      fl ← for_sound_file base_path sounds;
      match fl with
      | Return => mret Return
      | Next => for_base_path paths' sounds
      end
  end.

Definition beep_argv : list string := ["beep"; "-f"; "800"; "-l"; "100"].

Definition play_sound_linux (sound_type : string) : io () :=
  dflt ← getitem linux_sound_map "prompt";
  let sounds := dict_get linux_sound_map sound_type dflt in
  fl ← for_base_path sound_paths sounds;
  match fl with
  | Return => mret ()
  | Next =>
      try_except
        (subprocess_run beep_argv)
        (Class FileNotFoundError)
        (print BEL EmptyString true)
  end.

Definition play_sound_windows (sound_type : string) : io () :=
  try_except
    (import_winsound;;
     if bool_decide (sound_type = "success")
     then winsound_Beep 1000 100
     else winsound_Beep 800 150)
    (Class ImportError)
    (try_except_all
       (import_winsound;; winsound_MessageBeep)
       (print BEL EmptyString true)).

(** [main], with [sys.argv] as its argument. *)
Definition main (argv : list string) : io () :=
  sound_type ← (if bool_decide (length argv < 2)%nat
                then mret "prompt"
                else list_getitem argv 1);
  system ← platform_system;
  try_except
    (if bool_decide (system = "Darwin") then play_sound_macos sound_type
     else if bool_decide (system = "Linux") then play_sound_linux sound_type
     else if bool_decide (system = "Windows") then play_sound_windows sound_type
     else print BEL EmptyString true)
    Exception
    (mret ()).

(** Running the script: [main()] on an empty trace. *)
Definition run_script (argv : list string) (w : world) : outcome () * list event :=
  main argv w [].

(** ** Reading a trace *)

(** What the [print] calls of a trace send to standard output. *)
Fixpoint stdout_of (tr : list event) : string :=
  match tr with
  | [] => EmptyString
  | EPrint text end_ _ :: tr' => text +:+ end_ +:+ stdout_of tr'
  | _ :: tr' => stdout_of tr'
  end.

(** The tones a trace asks [winsound.Beep] for, as (frequency, duration). *)
Fixpoint tones (tr : list event) : list (Z * Z) :=
  match tr with
  | [] => []
  | EBeep frequency duration :: tr' => (frequency, duration) :: tones tr'
  | _ :: tr' => tones tr'
  end.

(** The handler of [except ImportError:] in [play_sound_windows], lines 89-93. *)
Definition windows_fallback : io () :=
  try_except_all
    (import_winsound;; winsound_MessageBeep)
    (print BEL EmptyString true).

(** [subprocess.run] answers a missing executable with [FileNotFoundError]. *)
Definition missing (answer : option exn) : bool :=
  match answer with
  | Some e => isinstance e (Class FileNotFoundError)
  | None => false
  end.

(** The full paths [play_sound_linux] builds for a sound type, in the order
    of its two loops. *)
Definition linux_candidates (sound_type : string) : list string :=
  let sounds := dict_get linux_sound_map sound_type
                  ["dialog-warning.oga"; "message-new-instant.oga"; "bell.oga"] in
  base_path ← sound_paths; os_path_join base_path <$> sounds.

(** The two loops of [play_sound_linux] as one loop over the full paths. *)
Fixpoint scan (candidates : list string) : io flow :=
  match candidates with
  | [] => mret Next
  | full_path :: candidates' =>
      found ← os_path_exists full_path;
      fl ← (if found : bool then try_players full_path else mret Next);
      match fl with
      | Return => mret Return
      | Next => scan candidates'
      end
  end.

(** What [scan] leaves in the trace for a candidate it passes over. *)
Definition passed_over (w : world) (full_path : string) : bool :=
  negb (host_exists w full_path) ||
  (missing (host_run w ["paplay"; full_path]) &&
   missing (host_run w ["aplay"; "-q"; full_path])).

Definition passing_events (w : world) (full_path : string) : list event :=
  EExists full_path ::
  (if host_exists w full_path
   then [ERun ["paplay"; full_path]; ERun ["aplay"; "-q"; full_path]]
   else []).

(** The players tried on an existing file, and the answer of the last one. *)
Definition player_events (w : world) (full_path : string) : list event :=
  ERun ["paplay"; full_path] ::
  (if missing (host_run w ["paplay"; full_path])
   then [ERun ["aplay"; "-q"; full_path]]
   else []).

Definition player_answer (w : world) (full_path : string) : option exn :=
  if missing (host_run w ["paplay"; full_path])
  then host_run w ["aplay"; "-q"; full_path]
  else host_run w ["paplay"; full_path].

(** ** Sample hosts *)

(** A host of the given system with no sound file, no player and no
    [winsound] module, on which printing works. *)
Definition bare_host (system : string) : world :=
  {| host_system := system;
     host_exists := λ _, false;
     host_run := λ _, Some FileNotFoundError;
     host_import_winsound := λ _, Some ModuleNotFoundError;
     host_Beep := λ _ _, None;
     host_MessageBeep := None;
     host_print := λ _, None |}.

(** A Windows host whose [winsound] works, unless [beep] says otherwise. *)
Definition windows_host (beep : option exn) : world :=
  {| host_system := "Windows";
     host_exists := λ _, false;
     host_run := λ _, Some FileNotFoundError;
     host_import_winsound := λ _, None;
     host_Beep := λ _ _, beep;
     host_MessageBeep := None;
     host_print := λ _, None |}.

(** A Linux host; [files] says which files exist, [run] answers the commands. *)
Definition linux_host (files : string → bool) (run : list string → option exn) : world :=
  {| host_system := "Linux";
     host_exists := files;
     host_run := run;
     host_import_winsound := λ _, Some ModuleNotFoundError;
     host_Beep := λ _ _, None;
     host_MessageBeep := None;
     host_print := λ _, None |}.

(** A Linux host with one sound file, the first candidate of ['prompt'],
    and no executable at all: neither player, nor [beep]. *)
Definition no_player_host : world :=
  linux_host
    (λ p, bool_decide (p = "/usr/share/sounds/freedesktop/stereo/dialog-warning.oga"))
    (λ _, Some FileNotFoundError).

(** A Linux host with one sound file, the second candidate of ['success'],
    on which [aplay] is the only executable. *)
Definition aplay_host : world :=
  linux_host
    (λ p, bool_decide (p = "/usr/share/sounds/freedesktop/stereo/message.oga"))
    (λ argv, if bool_decide (head argv = Some "aplay") then None
             else Some FileNotFoundError).

(** A macOS host; [run] answers the commands. *)
Definition macos_host (run : list string → option exn) : world :=
  {| host_system := "Darwin";
     host_exists := λ _, true;
     host_run := run;
     host_import_winsound := λ _, Some ModuleNotFoundError;
     host_Beep := λ _ _, None;
     host_MessageBeep := None;
     host_print := λ _, None |}.

(** A Windows host whose [import winsound] raises [e]. *)
Definition broken_import_host (e : exn) : world :=
  {| host_system := "Windows";
     host_exists := λ _, false;
     host_run := λ _, Some FileNotFoundError;
     host_import_winsound := λ _, Some e;
     host_Beep := λ _ _, None;
     host_MessageBeep := None;
     host_print := λ _, None |}.

(** A Linux host that has every sound file and no executable at all. *)
Definition all_files_no_player_host : world :=
  linux_host (λ _, true) (λ _, Some FileNotFoundError).

(** ** More readers of a trace *)

(** The paths a trace probes with [os.path.exists], in order. *)
Fixpoint probes (tr : list event) : list string :=
  match tr with
  | [] => []
  | EExists path :: tr' => path :: probes tr'
  | _ :: tr' => probes tr'
  end.

(** The command lines a trace hands to [subprocess.run], in order. *)
Fixpoint runs (tr : list event) : list (list string) :=
  match tr with
  | [] => []
  | ERun argv :: tr' => argv :: runs tr'
  | _ :: tr' => runs tr'
  end.

(** The events that need the [winsound] module. *)
Definition uses_winsound (ev : event) : bool :=
  match ev with
  | EImport _ | EBeep _ _ | EMessageBeep => true
  | _ => false
  end.

(** * The script under keyboard interrupts, up to the end of its process *)

(** The embedding above runs the script on a host that leaves it alone.
    Here the same source is run once more on a host that may also deliver
    Ctrl-C while a call is in progress, and the run is followed to the exit
    status of the interpreter. *)
Module Interruptible.

(** What propagates through the script: an exception raised by a call, or
    the [KeyboardInterrupt] of the interpreter. *)
Inductive raised : Type :=
| Exn (e : exn)
| KeyboardInterrupt.

(** [caught r c]: [except c] catches [r].  [KeyboardInterrupt] derives from
    [BaseException] directly, so only the bare clause catches it. *)
Definition caught (r : raised) (c : exn_class) : bool :=
  match r with
  | Exn e => isinstance e c
  | KeyboardInterrupt =>
      match c with
      | BaseException => true
      | _ => false
      end
  end.

(** The host of a process: the answers of [host]; [sigint n], which says
    that Ctrl-C arrives during the call made after [n] earlier ones; and
    [exit_flush], the answer of the last flush of [sys.stdout] that the
    interpreter makes on its way out when text is still buffered there. *)
Record process : Type := {
  host : world;
  sigint : nat → bool;
  exit_flush : option exn
}.

Inductive result (A : Type) : Type :=
| Done (a : A)
| Raised (r : raised).
Arguments Done {A} a.
Arguments Raised {A} r.

Definition io (A : Type) : Type := process → list event → result A * list event.

#[global] Instance io_ret : MRet io := λ A a _ tr, (Done a, tr).

#[global] Instance io_bind : MBind io := λ A B f m p tr,
  match m p tr with
  | (Done a, tr') => f a p tr'
  | (Raised r, tr') => (Raised r, tr')
  end.

Definition answered {A} (o : outcome A) : result A :=
  match o with
  | Ret a => Done a
  | Raise e => Raised (Exn e)
  end.

(** One call on the host: the event is recorded; the call is interrupted, or
    the answer of the host decides. *)
Definition call {A} (ev : event) (answer : world → outcome A) : io A :=
  λ p tr,
    (if sigint p (length tr) then Raised KeyboardInterrupt
     else answered (answer (host p)),
     tr ++ [ev]).

Definition try_except {A} (body : io A) (c : exn_class) (handler : io A) : io A :=
  λ p tr,
    match body p tr with
    | (Done a, tr') => (Done a, tr')
    | (Raised r, tr') =>
        if caught r c then handler p tr' else (Raised r, tr')
    end.

Definition try_except_all {A} (body : io A) (handler : io A) : io A :=
  try_except body BaseException handler.

Definition platform_system : io string :=
  λ p tr, (Done (host_system (host p)), tr).

Definition os_path_exists (path : string) : io bool :=
  call (EExists path) (λ w, Ret (host_exists w path)).

Definition subprocess_run (argv : list string) : io () :=
  call (ERun argv) (λ w, of_option (host_run w argv)).

Definition import_winsound : io () :=
  λ p tr,
    (if sigint p (length tr) then Raised KeyboardInterrupt
     else answered (of_option (host_import_winsound (host p) (imports_so_far tr))),
     tr ++ [EImport "winsound"]).

Definition winsound_Beep (frequency duration : Z) : io () :=
  call (EBeep frequency duration) (λ w, of_option (host_Beep w frequency duration)).

Definition winsound_MessageBeep : io () :=
  call EMessageBeep (λ w, of_option (host_MessageBeep w)).

Definition print (text end_ : string) (flush : bool) : io () :=
  call (EPrint text end_ flush) (λ w, of_option (host_print w (text +:+ end_))).

Definition getitem {V} (d : gmap string V) (k : string) : io V :=
  λ _ tr,
    match d !! k with
    | Some v => (Done v, tr)
    | None => (Raised (Exn KeyError), tr)
    end.

Definition list_getitem {V} (l : list V) (i : nat) : io V :=
  λ _ tr,
    match l !! i with
    | Some v => (Done v, tr)
    | None => (Raised (Exn IndexError), tr)
    end.

Definition play_sound_macos (sound_type : string) : io () :=
  dflt ← getitem macos_sound_map "prompt";
  let sound_file := dict_get macos_sound_map sound_type dflt in
  try_except
    (subprocess_run ["afplay"; sound_file])
    (Class FileNotFoundError)
    (subprocess_run ["osascript"; "-e"; "beep 1"]).

Definition try_players (full_path : string) : io flow :=
  try_except
    (subprocess_run ["paplay"; full_path];; mret Return)
    (Class FileNotFoundError)
    (try_except
       (subprocess_run ["aplay"; "-q"; full_path];; mret Return)
       (Class FileNotFoundError)
       (mret Next)).

Fixpoint for_sound_file (base_path : string) (sounds : list string) : io flow :=
  match sounds with
  | [] => mret Next
  | sound_file :: sounds' =>
      let full_path := os_path_join base_path sound_file in
      found ← os_path_exists full_path;
      fl ← (if found : bool then try_players full_path else mret Next);
      match fl with
      | Return => mret Return
      | Next => for_sound_file base_path sounds'
      end
  end.

Fixpoint for_base_path (paths : list string) (sounds : list string) : io flow :=
  match paths with
  | [] => mret Next
  | base_path :: paths' =>
      fl ← for_sound_file base_path sounds;
      match fl with
      | Return => mret Return
      | Next => for_base_path paths' sounds
      end
  end.

Definition play_sound_linux (sound_type : string) : io () :=
  dflt ← getitem linux_sound_map "prompt";
  let sounds := dict_get linux_sound_map sound_type dflt in
  fl ← for_base_path sound_paths sounds;
  match fl with
  | Return => mret ()
  | Next =>
      try_except
        (subprocess_run beep_argv)
        (Class FileNotFoundError)
        (print BEL EmptyString true)
  end.

Definition play_sound_windows (sound_type : string) : io () :=
  try_except
    (import_winsound;;
     if bool_decide (sound_type = "success")
     then winsound_Beep 1000 100
     else winsound_Beep 800 150)
    (Class ImportError)
    (try_except_all
       (import_winsound;; winsound_MessageBeep)
       (print BEL EmptyString true)).

Definition main (argv : list string) : io () :=
  sound_type ← (if bool_decide (length argv < 2)%nat
                then mret "prompt"
                else list_getitem argv 1);
  system ← platform_system;
  try_except
    (if bool_decide (system = "Darwin") then play_sound_macos sound_type
     else if bool_decide (system = "Linux") then play_sound_linux sound_type
     else if bool_decide (system = "Windows") then play_sound_windows sound_type
     else print BEL EmptyString true)
    Exception
    (mret ()).

(** A [print] of the trace raised: its text was written to the buffer of
    [sys.stdout] and the flush failed, so the text is still there when the
    interpreter finishes. *)
Fixpoint stdout_pending (w : world) (tr : list event) : bool :=
  match tr with
  | [] => false
  | EPrint text end_ _ :: tr' =>
      bool_decide (host_print w (text +:+ end_) ≠ None) || stdout_pending w tr'
  | _ :: tr' => stdout_pending w tr'
  end.

(** How the process ends, as its caller sees it. *)
Inductive termination : Type :=
| Exit (status : Z)
| Killed_by_SIGINT.

(** [if __name__ == '__main__': main()], then the end of the interpreter.
    An unhandled [KeyboardInterrupt] ends the process by the interrupt
    signal, any other unhandled exception with status 1.  When [main]
    returns, buffered text is flushed; a failure of that flush is reported
    on standard error and turns the status into 120. *)
Definition run_process (argv : list string) (p : process) : termination :=
  match main argv p [] with
  | (Done _, tr) =>
      if stdout_pending (host p) tr
      then match exit_flush p with
           | None => Exit 0
           | Some _ => Exit 120
           end
      else Exit 0
  | (Raised KeyboardInterrupt, _) => Killed_by_SIGINT
  | (Raised (Exn _), _) => Exit 1
  end.

End Interruptible.

(** A process that is not interrupted. *)
Definition undisturbed (w : world) (flush : option exn) : Interruptible.process :=
  {| Interruptible.host := w;
     Interruptible.sigint := λ _, false;
     Interruptible.exit_flush := flush |}.

(** The outcome and trace of the first embedding, read in the second. *)
Definition lift {A} (r : outcome A * list event)
    : Interruptible.result A * list event :=
  (Interruptible.answered r.1, r.2).

(** A macOS process on which [afplay] starts, and Ctrl-C arrives while the
    script waits for it. *)
Definition ctrl_c_process : Interruptible.process :=
  {| Interruptible.host := macos_host (λ _, None);
     Interruptible.sigint := λ n, bool_decide (n = 0%nat);
     Interruptible.exit_flush := None |}.

(** A Linux process with no sound file and no executable whose standard
    output cannot be written (a full device): [print] raises, and so does
    the flush at exit. *)
Definition full_stdout_process : Interruptible.process :=
  {| Interruptible.host :=
       {| host_system := "Linux";
          host_exists := λ _, false;
          host_run := λ _, Some FileNotFoundError;
          host_import_winsound := λ _, Some ModuleNotFoundError;
          host_Beep := λ _ _, None;
          host_MessageBeep := None;
          host_print := λ _, Some OSError |};
     Interruptible.sigint := λ _, false;
     Interruptible.exit_flush := Some OSError |}.

(** * Properties *)

(** ** Dictionaries and the sound type *)

Lemma lookup_success_prompt {V} (a b : V) (k : string) :
  ({[ "success" := a; "prompt" := b ]} : gmap string V) !! k =
  if bool_decide (k = "success") then Some a
  else if bool_decide (k = "prompt") then Some b
  else None.
Proof.
  repeat case_bool_decide; subst.
  - by rewrite lookup_insert_eq.
  - rewrite lookup_insert_ne; [|done]. by rewrite lookup_singleton_eq.
  - rewrite lookup_insert_ne; [|done]. by rewrite lookup_singleton_ne.
Qed.

Lemma dict_get_success_prompt {V} (a b : V) (k : string) :
  dict_get ({[ "success" := a; "prompt" := b ]} : gmap string V) k b =
  if bool_decide (k = "success") then a else b.
Proof.
  unfold dict_get. rewrite lookup_success_prompt.
  by repeat case_bool_decide.
Qed.

Lemma getitem_prompt {V} (a b : V) (w : world) (tr : list event) :
  getitem ({[ "success" := a; "prompt" := b ]} : gmap string V) "prompt" w tr =
  (Ret b, tr).
Proof. unfold getitem. by rewrite lookup_success_prompt. Qed.

(** ** Running computations *)

Lemma run_bind {A B} (m : io A) (f : A → io B) (w : world) (tr : list event) :
  (m ≫= f) w tr =
  match m w tr with
  | (Ret a, tr') => f a w tr'
  | (Raise e, tr') => (Raise e, tr')
  end.
Proof. reflexivity. Qed.

Lemma run_ret {A} (a : A) (w : world) (tr : list event) :
  (mret a : io A) w tr = (Ret a, tr).
Proof. reflexivity. Qed.

Lemma run_subprocess_run (argv : list string) (w : world) (tr : list event) :
  subprocess_run argv w tr = (of_option (host_run w argv), tr ++ [ERun argv]).
Proof. reflexivity. Qed.

(** An [except Exception] clause that does nothing turns every outcome of
    its body into a return. *)
Lemma try_except_Exception_pass (body : io ()) (w : world) (tr : list event) :
  try_except body Exception (mret ()) w tr = (Ret (), (body w tr).2).
Proof.
  unfold try_except. destruct (body w tr) as [[[]|e] tr']; reflexivity.
Qed.

(** ** The macOS strategy, run *)

Lemma run_play_sound_macos (sound_type : string) (w : world) (tr : list event) :
  let afplay := ["afplay"; if bool_decide (sound_type = "success")
                           then "/System/Library/Sounds/Hero.aiff"
                           else "/System/Library/Sounds/Blow.aiff"] in
  play_sound_macos sound_type w tr =
  match host_run w afplay with
  | None => (Ret (), tr ++ [ERun afplay])
  | Some e =>
      if isinstance e (Class FileNotFoundError)
      then (of_option (host_run w ["osascript"; "-e"; "beep 1"]),
            tr ++ [ERun afplay; ERun ["osascript"; "-e"; "beep 1"]])
      else (Raise e, tr ++ [ERun afplay])
  end.
Proof.
  intros afplay. unfold play_sound_macos, macos_sound_map.
  rewrite run_bind, getitem_prompt, dict_get_success_prompt.
  unfold try_except. rewrite !run_subprocess_run. fold afplay.
  destruct (host_run w afplay) as [e|]; simpl; [|done].
  destruct (isinstance e _); [|done].
  by rewrite <- app_assoc.
Qed.

(** ** The Linux strategy, run *)

Lemma run_try_players (full_path : string) (w : world) (tr : list event) :
  host_exists w full_path = true →
  try_players full_path w tr =
  (if missing (host_run w ["paplay"; full_path]) &&
      missing (host_run w ["aplay"; "-q"; full_path])
   then Ret Next
   else match player_answer w full_path with
        | None => Ret Return
        | Some e => Raise e
        end,
   tr ++ player_events w full_path).
Proof.
  intros _. unfold try_players, try_except, player_answer, player_events, missing.
  rewrite !run_bind, !run_subprocess_run.
  destruct (host_run w ["paplay"; full_path]) as [e|]; simpl; [|done].
  destruct (isinstance e _) eqn:He; simpl; [|done].
  rewrite !run_bind, !run_subprocess_run, <- app_assoc.
  destruct (host_run w ["aplay"; "-q"; full_path]) as [e'|]; simpl; [|done].
  by destruct (isinstance e' _).
Qed.

Lemma scan_passed_over (p : string) (rest : list string) (w : world) (tr : list event) :
  passed_over w p = true →
  scan (p :: rest) w tr = scan rest w (tr ++ passing_events w p).
Proof.
  unfold passed_over, passing_events. intros Hp. simpl scan.
  rewrite run_bind. unfold os_path_exists at 1, call.
  destruct (host_exists w p) eqn:Hex; simpl in Hp.
  - rewrite run_bind, run_try_players by done. rewrite Hp.
    unfold player_events. apply andb_true_iff in Hp as [-> _].
    by rewrite <- app_assoc.
  - by rewrite run_bind, run_ret.
Qed.

Lemma scan_played (p : string) (rest : list string) (w : world) (tr : list event) :
  host_exists w p = true → passed_over w p = false →
  scan (p :: rest) w tr =
  (match player_answer w p with
   | None => Ret Return
   | Some e => Raise e
   end,
   tr ++ EExists p :: player_events w p).
Proof.
  unfold passed_over. intros Hex Hp. rewrite Hex in Hp. simpl in Hp.
  simpl scan. rewrite run_bind. unfold os_path_exists at 1, call. rewrite Hex.
  rewrite run_bind, run_try_players by done. rewrite Hp, <- app_assoc. simpl.
  by destruct (player_answer w p).
Qed.

Lemma scan_pass_all (pre rest : list string) (w : world) (tr : list event) :
  (∀ q, q ∈ pre → passed_over w q = true) →
  scan (pre ++ rest) w tr = scan rest w (tr ++ (pre ≫= passing_events w)).
Proof.
  revert tr. induction pre as [|q pre IH]; intros tr Hpre; simpl.
  - by rewrite app_nil_r.
  - change (scan (q :: pre ++ rest) w tr =
            scan rest w (tr ++ (passing_events w q ++ (pre ≫= passing_events w)))).
    rewrite scan_passed_over by (apply Hpre; left).
    rewrite IH by (intros; apply Hpre; by right).
    by rewrite <- app_assoc.
Qed.

Lemma scan_app (l1 l2 : list string) (w : world) (tr : list event) :
  scan (l1 ++ l2) w tr =
  match scan l1 w tr with
  | (Ret Next, tr') => scan l2 w tr'
  | r => r
  end.
Proof.
  revert tr. induction l1 as [|p l1 IH]; intros tr; [done|].
  rewrite <- app_comm_cons. simpl scan. rewrite !run_bind.
  destruct (os_path_exists p w tr) as [[found|e] tr1]; [|done].
  rewrite !run_bind.
  destruct ((if found then try_players p else mret Next) w tr1) as [[[]|e] tr2];
    [apply IH|done|done].
Qed.

Lemma for_sound_file_scan (base_path : string) (sounds : list string) :
  for_sound_file base_path sounds = scan (os_path_join base_path <$> sounds).
Proof.
  induction sounds as [|f sounds IH]; [done|].
  rewrite fmap_cons. simpl. by rewrite IH.
Qed.

Lemma for_base_path_scan (paths sounds : list string) (w : world) (tr : list event) :
  for_base_path paths sounds w tr =
  scan (base_path ← paths; os_path_join base_path <$> sounds) w tr.
Proof.
  revert tr. induction paths as [|b paths IH]; intros tr; [done|].
  change (for_base_path (b :: paths) sounds w tr =
          scan ((os_path_join b <$> sounds) ++
                (base_path ← paths; os_path_join base_path <$> sounds)) w tr).
  rewrite scan_app. simpl for_base_path. rewrite run_bind, for_sound_file_scan.
  destruct (scan _ w tr) as [[[]|e] tr1]; [apply IH|done|done].
Qed.

Lemma run_play_sound_linux (sound_type : string) (w : world) (tr : list event) :
  play_sound_linux sound_type w tr =
  match scan (linux_candidates sound_type) w tr with
  | (Ret Next, tr') =>
      try_except (subprocess_run beep_argv) (Class FileNotFoundError)
        (print BEL EmptyString true) w tr'
  | (Ret Return, tr') => (Ret (), tr')
  | (Raise e, tr') => (Raise e, tr')
  end.
Proof.
  unfold play_sound_linux, linux_candidates, linux_sound_map.
  rewrite run_bind, getitem_prompt, run_bind, for_base_path_scan.
  by destruct (scan _ w tr) as [[[]|e] tr'].
Qed.

Lemma linux_candidates_other (sound_type : string) :
  sound_type ≠ "success" → linux_candidates sound_type = linux_candidates "prompt".
Proof.
  intros Hst. unfold linux_candidates, linux_sound_map.
  rewrite !dict_get_success_prompt.
  by rewrite !bool_decide_eq_false_2.
Qed.

(** When no candidate exists, the loops only probe. *)
Lemma scan_nothing_exists (candidates : list string) (w : world) (tr : list event) :
  (∀ p, p ∈ candidates → host_exists w p = false) →
  scan candidates w tr = (Ret Next, tr ++ (EExists <$> candidates)).
Proof.
  revert tr. induction candidates as [|p l IH]; intros tr Hno.
  - by rewrite app_nil_r.
  - rewrite scan_passed_over.
    + rewrite IH by (intros; apply Hno; by right).
      unfold passing_events. rewrite (Hno p) by left.
      by rewrite <- app_assoc.
    + unfold passed_over. by rewrite (Hno p) by left.
Qed.

(** The fall-back of [play_sound_linux], lines 66-72. *)
Lemma run_linux_fallback (w : world) (tr : list event) :
  try_except (subprocess_run beep_argv) (Class FileNotFoundError)
    (print BEL EmptyString true) w tr =
  if missing (host_run w beep_argv)
  then (of_option (host_print w BEL), tr ++ [ERun beep_argv; EPrint BEL EmptyString true])
  else (of_option (host_run w beep_argv), tr ++ [ERun beep_argv]).
Proof.
  unfold try_except, missing. rewrite run_subprocess_run.
  destruct (host_run w beep_argv) as [e|]; [|done]. simpl.
  destruct (isinstance e _); [|done].
  unfold print, call. by rewrite <- app_assoc.
Qed.

Lemma stdout_of_probes (candidates : list string) (tr : list event) :
  stdout_of ((EExists <$> candidates) ++ tr) = stdout_of tr.
Proof. induction candidates as [|p l IH]; [done|]. by rewrite fmap_cons. Qed.

(** ** The dispatcher, run *)

Lemma run_main (argv : list string) (w : world) (tr : list event) :
  let sound_type := default "prompt" (argv !! 1%nat) in
  main argv w tr =
  try_except
    (if bool_decide (host_system w = "Darwin") then play_sound_macos sound_type
     else if bool_decide (host_system w = "Linux") then play_sound_linux sound_type
     else if bool_decide (host_system w = "Windows") then play_sound_windows sound_type
     else print BEL EmptyString true)
    Exception (mret ()) w tr.
Proof.
  unfold main. rewrite run_bind.
  assert ((if bool_decide (length argv < 2)%nat
           then mret "prompt" else list_getitem argv 1) w tr =
          (Ret (default "prompt" (argv !! 1%nat)), tr)) as ->.
  { case_bool_decide as Hlen.
    - by rewrite lookup_ge_None_2 by lia.
    - unfold list_getitem.
      destruct (lookup_lt_is_Some_2 argv 1%nat) as [s ->]; [lia|done]. }
  by rewrite run_bind.
Qed.

(** ** The Windows strategy, run *)

Lemma run_windows_fallback (w : world) (tr : list event) :
  windows_fallback w tr =
  match host_import_winsound w (imports_so_far tr) with
  | Some _ =>
      (of_option (host_print w BEL),
       tr ++ [EImport "winsound"; EPrint BEL EmptyString true])
  | None =>
      match host_MessageBeep w with
      | None => (Ret (), tr ++ [EImport "winsound"; EMessageBeep])
      | Some _ =>
          (of_option (host_print w BEL),
           tr ++ [EImport "winsound"; EMessageBeep; EPrint BEL EmptyString true])
      end
  end.
Proof.
  unfold windows_fallback, try_except_all, try_except.
  rewrite run_bind. unfold import_winsound at 1.
  destruct (host_import_winsound w (imports_so_far tr)) as [e|]; simpl of_option;
    cbv iota beta.
  - unfold isinstance, print, call. by rewrite <- app_assoc.
  - unfold winsound_MessageBeep, call.
    destruct (host_MessageBeep w) as [e|]; simpl of_option; cbv iota beta.
    + unfold isinstance, print, call. by rewrite <- !app_assoc.
    + by rewrite <- app_assoc.
Qed.

Lemma run_play_sound_windows (sound_type : string) (w : world) :
  let tone := if bool_decide (sound_type = "success")
              then (1000, 100) else (800, 150) in
  play_sound_windows sound_type w [] =
  match host_import_winsound w 0 with
  | Some e =>
      if isinstance e (Class ImportError)
      then windows_fallback w [EImport "winsound"]
      else (Raise e, [EImport "winsound"])
  | None =>
      match host_Beep w tone.1 tone.2 with
      | None => (Ret (), [EImport "winsound"; EBeep tone.1 tone.2])
      | Some e =>
          if isinstance e (Class ImportError)
          then windows_fallback w [EImport "winsound"; EBeep tone.1 tone.2]
          else (Raise e, [EImport "winsound"; EBeep tone.1 tone.2])
      end
  end.
Proof.
  intros tone. unfold play_sound_windows. fold windows_fallback.
  unfold try_except. rewrite run_bind. unfold import_winsound at 1.
  change (imports_so_far []) with 0%nat.
  destruct (host_import_winsound w 0) as [e|]; simpl of_option; cbv iota beta; [done|].
  subst tone. case_bool_decide; unfold winsound_Beep, call; simpl fst; simpl snd.
  - by destruct (host_Beep w 1000 100).
  - by destruct (host_Beep w 800 150).
Qed.

(** * The claims *)

(** C2, as stated, fails.  On a host where the first candidate of ['prompt']
    exists and neither player can be started, the first existing file is
    found and both players are tried on it, but the function does not return
    there: the eight later candidates are probed, then [beep] and the bell
    are tried. *)
Lemma linux_missing_players_search_goes_on :
  head (linux_candidates "prompt") =
    Some "/usr/share/sounds/freedesktop/stereo/dialog-warning.oga" ∧
  host_exists no_player_host
    "/usr/share/sounds/freedesktop/stereo/dialog-warning.oga" = true ∧
  play_sound_linux "prompt" no_player_host [] =
  (Ret (),
   [ EExists "/usr/share/sounds/freedesktop/stereo/dialog-warning.oga";
     ERun ["paplay"; "/usr/share/sounds/freedesktop/stereo/dialog-warning.oga"];
     ERun ["aplay"; "-q"; "/usr/share/sounds/freedesktop/stereo/dialog-warning.oga"];
     EExists "/usr/share/sounds/freedesktop/stereo/message-new-instant.oga";
     EExists "/usr/share/sounds/freedesktop/stereo/bell.oga";
     EExists "/usr/share/sounds/ubuntu/stereo/dialog-warning.oga";
     EExists "/usr/share/sounds/ubuntu/stereo/message-new-instant.oga";
     EExists "/usr/share/sounds/ubuntu/stereo/bell.oga";
     EExists "/usr/share/sounds/gnome/default/alerts/dialog-warning.oga";
     EExists "/usr/share/sounds/gnome/default/alerts/message-new-instant.oga";
     EExists "/usr/share/sounds/gnome/default/alerts/bell.oga";
     ERun ["beep"; "-f"; "800"; "-l"; "100"];
     EPrint BEL EmptyString true ]) ∧
  ¬ (∀ (w : world) (sound_type : string) (pre : list string) (p : string)
       (post : list string),
       linux_candidates sound_type = pre ++ p :: post →
       (∀ q, q ∈ pre → host_exists w q = false) →
       host_exists w p = true →
       (play_sound_linux sound_type w []).2 =
       (EExists <$> pre) ++ EExists p :: player_events w p).
Proof.
  assert (play_sound_linux "prompt" no_player_host [] =
          (Ret (),
           [ EExists "/usr/share/sounds/freedesktop/stereo/dialog-warning.oga";
             ERun ["paplay"; "/usr/share/sounds/freedesktop/stereo/dialog-warning.oga"];
             ERun ["aplay"; "-q"; "/usr/share/sounds/freedesktop/stereo/dialog-warning.oga"];
             EExists "/usr/share/sounds/freedesktop/stereo/message-new-instant.oga";
             EExists "/usr/share/sounds/freedesktop/stereo/bell.oga";
             EExists "/usr/share/sounds/ubuntu/stereo/dialog-warning.oga";
             EExists "/usr/share/sounds/ubuntu/stereo/message-new-instant.oga";
             EExists "/usr/share/sounds/ubuntu/stereo/bell.oga";
             EExists "/usr/share/sounds/gnome/default/alerts/dialog-warning.oga";
             EExists "/usr/share/sounds/gnome/default/alerts/message-new-instant.oga";
             EExists "/usr/share/sounds/gnome/default/alerts/bell.oga";
             ERun ["beep"; "-f"; "800"; "-l"; "100"];
             EPrint BEL EmptyString true ])) as Hrun
    by (vm_compute; reflexivity).
  split_and!; [by vm_compute|by vm_compute|exact Hrun|].
  intros Hclaim.
  specialize (Hclaim no_player_host "prompt" []
    "/usr/share/sounds/freedesktop/stereo/dialog-warning.oga"
    (tail (linux_candidates "prompt"))).
  rewrite Hrun in Hclaim.
  specialize (Hclaim ltac:(by vm_compute)
                     ltac:(by intros q ?%elem_of_nil)
                     ltac:(by vm_compute)).
  vm_compute in Hclaim. discriminate Hclaim.
Qed.

(** C2, amended.  The candidates are probed in order.  A candidate whose file
    does not exist, or whose file exists while neither [paplay] nor [aplay]
    can be started, is passed over.  At the first candidate whose file exists
    and for which one of the two players can be started, the function ends
    right after that player attempt, with the answer of [subprocess.run] and
    whatever the player did: no later candidate is probed, and neither [beep]
    nor the bell is tried. *)
Theorem linux_ends_at_first_playable (w : world) (sound_type : string)
    (pre : list string) (p : string) (post : list string) :
  linux_candidates sound_type = pre ++ p :: post →
  (∀ q, q ∈ pre → passed_over w q = true) →
  host_exists w p = true →
  missing (host_run w ["paplay"; p]) && missing (host_run w ["aplay"; "-q"; p]) = false →
  play_sound_linux sound_type w [] =
  (of_option (player_answer w p),
   (pre ≫= passing_events w) ++ EExists p :: player_events w p).
Proof.
  intros Hcand Hpre Hex Hplay.
  rewrite run_play_sound_linux, Hcand, scan_pass_all by done.
  rewrite scan_played; [|done|unfold passed_over; by rewrite Hex].
  simpl. by destruct (player_answer w p).
Qed.

Lemma linux_ends_at_first_playable_witness :
  play_sound_linux "success" aplay_host [] =
  (Ret (),
   [ EExists "/usr/share/sounds/freedesktop/stereo/complete.oga";
     EExists "/usr/share/sounds/freedesktop/stereo/message.oga";
     ERun ["paplay"; "/usr/share/sounds/freedesktop/stereo/message.oga"];
     ERun ["aplay"; "-q"; "/usr/share/sounds/freedesktop/stereo/message.oga"] ]).
Proof.
  apply (linux_ends_at_first_playable aplay_host "success"
           ["/usr/share/sounds/freedesktop/stereo/complete.oga"]
           "/usr/share/sounds/freedesktop/stereo/message.oga"
           (drop 2 (linux_candidates "success"))).
  - vm_compute. reflexivity.
  - intros q Hq. apply list_elem_of_singleton in Hq. rewrite Hq. reflexivity.
  - reflexivity.
  - reflexivity.
Defined.

(** C3, on the code.  When the first [import winsound] raises an
    [ImportError], the handler starts with the same import; on a host where
    that import fails again the handler ends in its bare [except] before it
    reaches [MessageBeep]: the trace is the two imports and the bell, and
    the system notification sound is never requested. *)
Theorem windows_fallback_skips_MessageBeep (w : world) (sound_type : string) (e : exn) :
  host_import_winsound w 0 = Some e →
  isinstance e (Class ImportError) = true →
  host_import_winsound w 1 = host_import_winsound w 0 →
  play_sound_windows sound_type w [] =
    (of_option (host_print w BEL),
     [EImport "winsound"; EImport "winsound"; EPrint BEL EmptyString true]) ∧
  EMessageBeep ∉ (play_sound_windows sound_type w []).2.
Proof.
  intros H0 He H1. rewrite H0 in H1.
  assert (play_sound_windows sound_type w [] =
          (of_option (host_print w BEL),
           [EImport "winsound"; EImport "winsound"; EPrint BEL EmptyString true]))
    as Hrun.
  { rewrite run_play_sound_windows, H0, He, run_windows_fallback.
    change (imports_so_far [EImport "winsound"]) with 1%nat. by rewrite H1. }
  split; [exact Hrun|]. rewrite Hrun. simpl.
  intros Hin. repeat (apply elem_of_cons in Hin as [Hin|Hin]; [discriminate Hin|]).
  by apply elem_of_nil in Hin.
Qed.

Lemma windows_fallback_skips_MessageBeep_witness :
  play_sound_windows "prompt" (bare_host "Windows") [] =
    (of_option (host_print (bare_host "Windows") BEL),
     [EImport "winsound"; EImport "winsound"; EPrint BEL EmptyString true]) ∧
  EMessageBeep ∉ (play_sound_windows "prompt" (bare_host "Windows") []).2.
Proof.
  apply (windows_fallback_skips_MessageBeep (bare_host "Windows") "prompt"
           ModuleNotFoundError).
  - reflexivity.
  - reflexivity.
  - reflexivity.
Defined.

(** C4. On each platform strategy, and through [main], a sound type other
    than ['success'] gives the outcome and the trace of ['prompt']. *)
Theorem other_sound_type_is_prompt (w : world) (sound_type : string) (tr : list event) :
  sound_type ≠ "success" →
  play_sound_macos sound_type w tr = play_sound_macos "prompt" w tr ∧
  play_sound_linux sound_type w tr = play_sound_linux "prompt" w tr ∧
  play_sound_windows sound_type w tr = play_sound_windows "prompt" w tr ∧
  ∀ script, main [script; sound_type] w tr = main [script; "prompt"] w tr.
Proof.
  intros Hst.
  assert (play_sound_macos sound_type w tr = play_sound_macos "prompt" w tr) as Hmac.
  { rewrite !run_play_sound_macos. by rewrite !bool_decide_eq_false_2. }
  assert (play_sound_linux sound_type w tr = play_sound_linux "prompt" w tr) as Hlin.
  { rewrite !run_play_sound_linux. by rewrite linux_candidates_other. }
  assert (play_sound_windows sound_type w tr = play_sound_windows "prompt" w tr) as Hwin.
  { unfold play_sound_windows. by rewrite !bool_decide_eq_false_2. }
  split_and!; [done..|].
  intros script. rewrite !run_main. simpl default.
  unfold try_except. repeat case_bool_decide; by rewrite ?Hmac, ?Hlin, ?Hwin.
Qed.

Lemma other_sound_type_is_prompt_witness :
  play_sound_macos "unknown-garbage" (bare_host "Darwin") [] =
    play_sound_macos "prompt" (bare_host "Darwin") [] ∧
  play_sound_linux "unknown-garbage" (bare_host "Darwin") [] =
    play_sound_linux "prompt" (bare_host "Darwin") [] ∧
  play_sound_windows "unknown-garbage" (bare_host "Darwin") [] =
    play_sound_windows "prompt" (bare_host "Darwin") [] ∧
  ∀ script, main [script; "unknown-garbage"] (bare_host "Darwin") [] =
            main [script; "prompt"] (bare_host "Darwin") [].
Proof.
  apply (other_sound_type_is_prompt (bare_host "Darwin") "unknown-garbage" []).
  discriminate.
Defined.

(** C5. With [winsound] importable, the Windows strategy asks for exactly one
    tone: 1000 Hz for 100 ms for ['success'], 800 Hz for 150 ms for every
    other sound type, and so for the default of [main] when the script has no
    argument. *)
Theorem windows_tone (w : world) :
  host_import_winsound w 0 = None →
  tones (play_sound_windows "success" w []).2 = [(1000, 100)] ∧
  (∀ sound_type, sound_type ≠ "success" →
     tones (play_sound_windows sound_type w []).2 = [(800, 150)]) ∧
  (host_system w = "Windows" →
   ∀ argv, (length argv < 2)%nat → tones (run_script argv w).2 = [(800, 150)]).
Proof.
  intros Himp.
  assert (∀ st, tones (play_sound_windows st w []).2 =
                [if bool_decide (st = "success") then (1000, 100) else (800, 150)])
    as Hrun.
  { intros st. rewrite run_play_sound_windows, Himp.
    case_bool_decide; simpl fst; simpl snd.
    - destruct (host_Beep w 1000 100) as [e|]; [|done].
      destruct (isinstance e _); [|done].
      rewrite run_windows_fallback.
      destruct (host_import_winsound w (imports_so_far _)); [reflexivity|].
      destruct (host_MessageBeep w); reflexivity.
    - destruct (host_Beep w 800 150) as [e|]; [|done].
      destruct (isinstance e _); [|done].
      rewrite run_windows_fallback.
      destruct (host_import_winsound w (imports_so_far _)); [reflexivity|].
      destruct (host_MessageBeep w); reflexivity. }
  split_and!.
  - by rewrite Hrun.
  - intros st Hst. by rewrite Hrun, bool_decide_eq_false_2.
  - intros Hsys argv Hlen. unfold run_script.
    rewrite run_main, try_except_Exception_pass, Hsys.
    rewrite lookup_ge_None_2 by lia. simpl.
    by rewrite Hrun.
Qed.

Lemma windows_tone_witness :
  tones (play_sound_windows "success" (windows_host None) []).2 = [(1000, 100)] ∧
  tones (play_sound_windows "prompt" (windows_host None) []).2 = [(800, 150)] ∧
  tones (run_script ["play-sound.py"] (windows_host None)).2 = [(800, 150)].
Proof.
  destruct (windows_tone (windows_host None)) as (Hsuccess & Hother & Hmain).
  - reflexivity.
  - split_and!.
    + exact Hsuccess.
    + apply Hother. discriminate.
    + apply Hmain; [reflexivity|]. simpl. lia.
Defined.

(** C6. On Linux, when no candidate of the sound type exists, every
    candidate is probed, then [beep] is tried; when that executable is
    missing, one [print] writes the bell character alone, with an empty [end]
    and [flush=True], and nothing else reaches standard output. *)
Theorem linux_no_file_beep_then_bell (w : world) (sound_type : string) :
  (∀ p, p ∈ linux_candidates sound_type → host_exists w p = false) →
  (play_sound_linux sound_type w []).2 =
    (EExists <$> linux_candidates sound_type) ++
    ERun ["beep"; "-f"; "800"; "-l"; "100"] ::
    (if missing (host_run w ["beep"; "-f"; "800"; "-l"; "100"])
     then [EPrint (String "007"%char EmptyString) EmptyString true]
     else []) ∧
  stdout_of (play_sound_linux sound_type w []).2 =
    (if missing (host_run w ["beep"; "-f"; "800"; "-l"; "100"])
     then String "007"%char EmptyString
     else EmptyString).
Proof.
  intros Hno.
  assert ((play_sound_linux sound_type w []).2 =
          (EExists <$> linux_candidates sound_type) ++
          ERun beep_argv ::
          (if missing (host_run w beep_argv)
           then [EPrint BEL EmptyString true] else [])) as Hrun.
  { rewrite run_play_sound_linux, scan_nothing_exists by done.
    rewrite run_linux_fallback. by destruct (missing _). }
  split; [exact Hrun|].
  rewrite Hrun, stdout_of_probes. fold beep_argv. by destruct (missing _).
Qed.

Lemma linux_no_file_beep_then_bell_witness :
  (play_sound_linux "success" (bare_host "Linux") []).2 =
    (EExists <$> linux_candidates "success") ++
    [ERun ["beep"; "-f"; "800"; "-l"; "100"];
     EPrint (String "007"%char EmptyString) EmptyString true] ∧
  stdout_of (play_sound_linux "success" (bare_host "Linux") []).2 =
    String "007"%char EmptyString.
Proof.
  apply (linux_no_file_beep_then_bell (bare_host "Linux") "success").
  intros p Hp. reflexivity.
Defined.

(** C7. On a platform that is none of Darwin, Linux and Windows, the
    dispatcher does one thing: it prints the bell character with an empty
    [end] and [flush=True].  No file is probed and no command is run. *)
Theorem unknown_platform_only_bell (argv : list string) (w : world) :
  host_system w ≠ "Darwin" →
  host_system w ≠ "Linux" →
  host_system w ≠ "Windows" →
  run_script argv w =
  (Ret (), [EPrint (String "007"%char EmptyString) EmptyString true]).
Proof.
  intros Hmac Hlin Hwin. unfold run_script.
  rewrite run_main, try_except_Exception_pass.
  by rewrite !bool_decide_eq_false_2.
Qed.

Lemma unknown_platform_only_bell_witness :
  run_script ["play-sound.py"; "success"] (bare_host "FreeBSD") =
  (Ret (), [EPrint (String "007"%char EmptyString) EmptyString true]).
Proof.
  apply (unknown_platform_only_bell ["play-sound.py"; "success"] (bare_host "FreeBSD"));
    discriminate.
Defined.

(** C8. On macOS, ['success'] first runs [afplay] on the Hero sound; the
    [osascript] beep is run after it exactly when [afplay] is missing, that
    is when running it raised [FileNotFoundError]. *)
Theorem macos_success_hero_first (w : world) :
  (play_sound_macos "success" w []).2 =
    ERun ["afplay"; "/System/Library/Sounds/Hero.aiff"] ::
    (if missing (host_run w ["afplay"; "/System/Library/Sounds/Hero.aiff"])
     then [ERun ["osascript"; "-e"; "beep 1"]]
     else []) ∧
  (ERun ["osascript"; "-e"; "beep 1"] ∈ (play_sound_macos "success" w []).2 ↔
   missing (host_run w ["afplay"; "/System/Library/Sounds/Hero.aiff"]) = true).
Proof.
  assert ((play_sound_macos "success" w []).2 =
          ERun ["afplay"; "/System/Library/Sounds/Hero.aiff"] ::
          (if missing (host_run w ["afplay"; "/System/Library/Sounds/Hero.aiff"])
           then [ERun ["osascript"; "-e"; "beep 1"]]
           else [])) as Hrun.
  { rewrite run_play_sound_macos. simpl. unfold missing.
    destruct (host_run w _) as [e|]; [|done]. by destruct (isinstance e _). }
  split; [exact Hrun|]. rewrite Hrun.
  destruct (missing _).
  - split; [done|]. intros _. right. left.
  - split; [|done]. intros Hin.
    apply list_elem_of_singleton in Hin. discriminate Hin.
Qed.

(** C9. On Windows, with [winsound] imported, an exception of
    [winsound.Beep] that is not an [ImportError] (a [RuntimeError], say) is
    caught by no handler of [play_sound_windows]: it leaves the function
    after the import and the tone request, with neither [MessageBeep] nor
    the bell tried, and [main] drops it. *)
Theorem windows_Beep_error_escapes (w : world) (sound_type : string)
    (frequency duration : Z) (e : exn) :
  (frequency, duration) =
    (if bool_decide (sound_type = "success") then (1000, 100) else (800, 150)) →
  host_import_winsound w 0 = None →
  host_Beep w frequency duration = Some e →
  isinstance e (Class ImportError) = false →
  play_sound_windows sound_type w [] =
    (Raise e, [EImport "winsound"; EBeep frequency duration]) ∧
  (host_system w = "Windows" →
   ∀ script, run_script [script; sound_type] w =
             (Ret (), [EImport "winsound"; EBeep frequency duration])).
Proof.
  intros Htone Himp Hbeep He.
  assert (play_sound_windows sound_type w [] =
          (Raise e, [EImport "winsound"; EBeep frequency duration])) as Hrun.
  { rewrite run_play_sound_windows, Himp, <- Htone. simpl fst; simpl snd.
    by rewrite Hbeep, He. }
  split; [exact Hrun|].
  intros Hsys script. unfold run_script.
  rewrite run_main, try_except_Exception_pass, Hsys. simpl.
  by rewrite Hrun.
Qed.

Lemma windows_Beep_error_escapes_witness :
  play_sound_windows "success" (windows_host (Some RuntimeError)) [] =
    (Raise RuntimeError, [EImport "winsound"; EBeep 1000 100]) ∧
  run_script ["play-sound.py"; "success"] (windows_host (Some RuntimeError)) =
    (Ret (), [EImport "winsound"; EBeep 1000 100]).
Proof.
  destruct (windows_Beep_error_escapes (windows_host (Some RuntimeError))
              "success" 1000 100 RuntimeError) as [Hrun Hmain].
  - reflexivity.
  - reflexivity.
  - reflexivity.
  - reflexivity.
  - split; [exact Hrun|]. apply Hmain. reflexivity.
Defined.

(** C10. On Linux, when no candidate exists, what follows the probes does
    not depend on the sound type: it starts with [beep -f 800 -l 100], and
    the rest of the trace and the outcome are the same for any two sound
    types. *)
Theorem linux_fallback_ignores_sound_type (w : world) (st1 st2 : string) :
  (∀ p, p ∈ linux_candidates st1 → host_exists w p = false) →
  (∀ p, p ∈ linux_candidates st2 → host_exists w p = false) →
  (play_sound_linux st1 w []).2 !! length (linux_candidates st1) =
    Some (ERun ["beep"; "-f"; "800"; "-l"; "100"]) ∧
  drop (length (linux_candidates st1)) (play_sound_linux st1 w []).2 =
    drop (length (linux_candidates st2)) (play_sound_linux st2 w []).2 ∧
  (play_sound_linux st1 w []).1 = (play_sound_linux st2 w []).1.
Proof.
  intros Hno1 Hno2.
  rewrite !run_play_sound_linux, !scan_nothing_exists by done.
  rewrite !run_linux_fallback. simpl app.
  destruct (missing _); simpl; split_and!; try done.
  - rewrite lookup_app_r; rewrite length_fmap; [|done].
    by rewrite Nat.sub_diag.
  - rewrite !drop_app_length'; [done|by rewrite length_fmap..].
  - rewrite lookup_app_r; rewrite length_fmap; [|done].
    by rewrite Nat.sub_diag.
  - rewrite !drop_app_length'; [done|by rewrite length_fmap..].
Qed.

Lemma linux_fallback_ignores_sound_type_witness :
  (play_sound_linux "success" (bare_host "Linux") []).2 !!
      length (linux_candidates "success") =
    Some (ERun ["beep"; "-f"; "800"; "-l"; "100"]) ∧
  drop (length (linux_candidates "success"))
       (play_sound_linux "success" (bare_host "Linux") []).2 =
    drop (length (linux_candidates "prompt"))
         (play_sound_linux "prompt" (bare_host "Linux") []).2 ∧
  (play_sound_linux "success" (bare_host "Linux") []).1 =
    (play_sound_linux "prompt" (bare_host "Linux") []).1.
Proof.
  apply (linux_fallback_ignores_sound_type (bare_host "Linux") "success" "prompt").
  - intros p Hp. reflexivity.
  - intros p Hp. reflexivity.
Defined.

(** * Further properties of the script *)

(** ** Reading traces piecewise *)

Lemma probes_app (tr1 tr2 : list event) :
  probes (tr1 ++ tr2) = probes tr1 ++ probes tr2.
Proof.
  induction tr1 as [|[] tr1 IH]; simpl; by rewrite ?IH.
Qed.

Lemma runs_app (tr1 tr2 : list event) :
  runs (tr1 ++ tr2) = runs tr1 ++ runs tr2.
Proof.
  induction tr1 as [|[] tr1 IH]; simpl; by rewrite ?IH.
Qed.

Lemma stdout_of_app_silent (tr1 tr2 : list event) :
  stdout_of tr1 = EmptyString → stdout_of (tr1 ++ tr2) = stdout_of tr2.
Proof.
  induction tr1 as [|ev tr1 IH]; [done|].
  destruct ev; simpl; try done.
  intros Hout. destruct text; [|done]. destruct end_; [|done]. simpl in *. auto.
Qed.

Lemma probes_passing (w : world) (l : list string) :
  probes (l ≫= passing_events w) = l.
Proof.
  induction l as [|q l IH]; [done|].
  change (probes (passing_events w q ++ (l ≫= passing_events w)) = q :: l).
  rewrite probes_app, IH. unfold passing_events. by destruct (host_exists w q).
Qed.

Lemma stdout_of_passing (w : world) (l : list string) :
  stdout_of (l ≫= passing_events w) = EmptyString.
Proof.
  induction l as [|q l IH]; [done|].
  change (stdout_of (passing_events w q ++ (l ≫= passing_events w)) = EmptyString).
  rewrite stdout_of_app_silent; [done|].
  unfold passing_events. by destruct (host_exists w q).
Qed.

Lemma length_passing (w : world) (l : list string) :
  (length (l ≫= passing_events w) ≤ 3 * length l)%nat.
Proof.
  induction l as [|q l IH]; [done|].
  change (length (passing_events w q ++ (l ≫= passing_events w)) ≤ 3 * S (length l))%nat.
  assert (length (passing_events w q) ≤ 3)%nat
    by (unfold passing_events; destruct (host_exists w q); simpl; lia).
  rewrite length_app. lia.
Qed.

Lemma length_runs_passing (w : world) (l : list string) :
  (length (runs (l ≫= passing_events w)) ≤ 2 * length l)%nat.
Proof.
  induction l as [|q l IH]; [done|].
  change (length (runs (passing_events w q ++ (l ≫= passing_events w)))
          ≤ 2 * S (length l))%nat.
  assert (length (runs (passing_events w q)) ≤ 2)%nat
    by (unfold passing_events; destruct (host_exists w q); simpl; lia).
  rewrite runs_app, length_app. lia.
Qed.

Lemma passed_over_false (w : world) (p : string) :
  passed_over w p = false →
  host_exists w p = true ∧
  missing (host_run w ["paplay"; p]) && missing (host_run w ["aplay"; "-q"; p]) = false.
Proof.
  unfold passed_over. destruct (host_exists w p); simpl; [done|discriminate].
Qed.

(** ** The two ways the loops of [play_sound_linux] end *)

Lemma scan_cases (l : list string) (w : world) (tr : list event) :
  ((∀ q, q ∈ l → passed_over w q = true) ∧
   scan l w tr = (Ret Next, tr ++ (l ≫= passing_events w))) ∨
  (∃ pre p post,
     l = pre ++ p :: post ∧
     (∀ q, q ∈ pre → passed_over w q = true) ∧
     passed_over w p = false ∧
     scan l w tr =
     (match player_answer w p with
      | None => Ret Return
      | Some e => Raise e
      end,
      tr ++ (pre ≫= passing_events w) ++ EExists p :: player_events w p)).
Proof.
  revert tr. induction l as [|q l IH]; intros tr.
  - left. split; [by intros q ?%elem_of_nil|]. simpl. by rewrite app_nil_r.
  - destruct (passed_over w q) eqn:Hq.
    + rewrite scan_passed_over by done.
      destruct (IH (tr ++ passing_events w q))
        as [[Hall Hrun]|(pre & p & post & -> & Hpre & Hp & Hrun)].
      * left. split.
        { intros q' [->|Hin]%elem_of_cons; auto. }
        rewrite Hrun, <- app_assoc. done.
      * right. exists (q :: pre), p, post. split_and!; [done| |done|].
        { intros q' [->|Hin]%elem_of_cons; auto. }
        rewrite Hrun. f_equal.
        change ((q :: pre) ≫= passing_events w)
          with (passing_events w q ++ (pre ≫= passing_events w)).
        by rewrite <- !app_assoc.
    + right. exists [], q, l.
      destruct (passed_over_false w q Hq) as [Hex Hplay].
      split_and!; [done|by intros q' ?%elem_of_nil|done|].
      by rewrite scan_played.
Qed.

Lemma linux_cases (w : world) (sound_type : string) :
  ((∀ q, q ∈ linux_candidates sound_type → passed_over w q = true) ∧
   play_sound_linux sound_type w [] =
   (if missing (host_run w beep_argv)
    then of_option (host_print w BEL)
    else of_option (host_run w beep_argv),
    (linux_candidates sound_type ≫= passing_events w) ++
    ERun beep_argv ::
    (if missing (host_run w beep_argv) then [EPrint BEL EmptyString true] else []))) ∨
  (∃ pre p post,
     linux_candidates sound_type = pre ++ p :: post ∧
     (∀ q, q ∈ pre → passed_over w q = true) ∧
     passed_over w p = false ∧
     play_sound_linux sound_type w [] =
     (of_option (player_answer w p),
      (pre ≫= passing_events w) ++ EExists p :: player_events w p)).
Proof.
  rewrite run_play_sound_linux.
  destruct (scan_cases (linux_candidates sound_type) w [])
    as [[Hall ->]|(pre & p & post & Hl & Hpre & Hp & ->)].
  - left. split; [done|]. rewrite run_linux_fallback. simpl.
    by destruct (missing _).
  - right. exists pre, p, post. split_and!; [done..|].
    simpl. by destruct (player_answer w p).
Qed.

Lemma length_linux_candidates (sound_type : string) :
  length (linux_candidates sound_type) = 9%nat.
Proof.
  unfold linux_candidates, linux_sound_map. rewrite dict_get_success_prompt.
  by case_bool_decide.
Qed.

(** Where an event of a Linux trace comes from. *)
Lemma linux_event_origin (w : world) (sound_type : string) (ev : event) :
  ev ∈ (play_sound_linux sound_type w []).2 →
  (∃ p, p ∈ linux_candidates sound_type ∧
        (ev = EExists p ∨
         (host_exists w p = true ∧
          (ev = ERun ["paplay"; p] ∨
           (ev = ERun ["aplay"; "-q"; p] ∧
            missing (host_run w ["paplay"; p]) = true))))) ∨
  ev = ERun beep_argv ∨
  ev = EPrint BEL EmptyString true.
Proof.
  assert (∀ l, (∀ q, q ∈ l → passed_over w q = true) →
               ev ∈ l ≫= passing_events w →
               ∃ p, p ∈ l ∧
                 (ev = EExists p ∨
                  (host_exists w p = true ∧
                   (ev = ERun ["paplay"; p] ∨
                    (ev = ERun ["aplay"; "-q"; p] ∧
                     missing (host_run w ["paplay"; p]) = true))))) as Hpassing.
  { intros l Hl (q & Hev & Hq)%list_elem_of_bind. exists q. split; [done|].
    specialize (Hl q Hq). unfold passed_over in Hl. unfold passing_events in Hev.
    destruct (host_exists w q); simpl in Hl.
    - apply andb_true_iff in Hl as [Hpa _].
      apply elem_of_cons in Hev as [->|Hev]; [by left|]. right. split; [done|].
      apply elem_of_cons in Hev as [->|Hev]; [by left|].
      apply list_elem_of_singleton in Hev as ->. by right.
    - apply list_elem_of_singleton in Hev as ->. by left. }
  destruct (linux_cases w sound_type)
    as [[Hall ->]|(pre & p & post & Hl & Hpre & Hp & ->)]; simpl; intros Hev.
  - apply elem_of_app in Hev as [Hev|Hev]; [left; by apply Hpassing|].
    right. apply elem_of_cons in Hev as [->|Hev]; [by left|].
    destruct (missing _); [|by apply elem_of_nil in Hev].
    apply list_elem_of_singleton in Hev as ->. by right.
  - left. rewrite Hl.
    destruct (passed_over_false w p Hp) as [Hex Hplay].
    apply elem_of_app in Hev as [Hev|Hev].
    + destruct (Hpassing pre Hpre Hev) as (q & Hq & Hor).
      exists q. split; [|done]. apply elem_of_app. by left.
    + exists p. split; [apply elem_of_app; right; left|].
      apply elem_of_cons in Hev as [->|Hev]; [by left|]. right. split; [done|].
      unfold player_events in Hev.
      apply elem_of_cons in Hev as [->|Hev]; [by left|].
      destruct (missing (host_run w ["paplay"; p])) eqn:Hpa;
        [|by apply elem_of_nil in Hev].
      apply list_elem_of_singleton in Hev as ->. by right.
Qed.

(** ** The macOS strategy *)

(** X1. On macOS every sound type other than ['success'] plays the Blow
    sound: [afplay] is run on it first, and [osascript] follows exactly when
    [afplay] is missing. *)
Theorem macos_other_plays_Blow (w : world) (sound_type : string) :
  sound_type ≠ "success" →
  (play_sound_macos sound_type w []).2 =
    ERun ["afplay"; "/System/Library/Sounds/Blow.aiff"] ::
    (if missing (host_run w ["afplay"; "/System/Library/Sounds/Blow.aiff"])
     then [ERun ["osascript"; "-e"; "beep 1"]]
     else []).
Proof.
  intros Hst. rewrite run_play_sound_macos, bool_decide_eq_false_2 by done.
  simpl. unfold missing.
  destruct (host_run w _) as [e|]; [|done]. by destruct (isinstance e _).
Qed.

Lemma macos_other_plays_Blow_witness :
  (play_sound_macos "unknown-garbage" (bare_host "Darwin") []).2 =
    [ERun ["afplay"; "/System/Library/Sounds/Blow.aiff"];
     ERun ["osascript"; "-e"; "beep 1"]].
Proof.
  apply (macos_other_plays_Blow (bare_host "Darwin") "unknown-garbage").
  discriminate.
Defined.

(** X2. On macOS an exception of the [afplay] call that is not a
    [FileNotFoundError] (a [PermissionError], say) is not handled by
    [play_sound_macos]: it leaves the function with [afplay] as the only
    attempt, [osascript] is not run, and [main] drops it. *)
Theorem macos_afplay_error_escapes (w : world) (sound_type : string)
    (sound_file : string) (e : exn) :
  sound_file = (if bool_decide (sound_type = "success")
                then "/System/Library/Sounds/Hero.aiff"
                else "/System/Library/Sounds/Blow.aiff") →
  host_run w ["afplay"; sound_file] = Some e →
  isinstance e (Class FileNotFoundError) = false →
  play_sound_macos sound_type w [] = (Raise e, [ERun ["afplay"; sound_file]]) ∧
  (host_system w = "Darwin" →
   ∀ script, run_script [script; sound_type] w =
             (Ret (), [ERun ["afplay"; sound_file]])).
Proof.
  intros Hfile Hrun He.
  assert (play_sound_macos sound_type w [] =
          (Raise e, [ERun ["afplay"; sound_file]])) as Hplay.
  { rewrite run_play_sound_macos. simpl. rewrite <- Hfile, Hrun, He. done. }
  split; [done|]. intros Hsys script. unfold run_script.
  rewrite run_main, try_except_Exception_pass, Hsys. simpl. by rewrite Hplay.
Qed.

Lemma macos_afplay_error_escapes_witness :
  play_sound_macos "success" (macos_host (λ _, Some PermissionError)) [] =
    (Raise PermissionError, [ERun ["afplay"; "/System/Library/Sounds/Hero.aiff"]]) ∧
  run_script ["play-sound.py"; "success"] (macos_host (λ _, Some PermissionError)) =
    (Ret (), [ERun ["afplay"; "/System/Library/Sounds/Hero.aiff"]]).
Proof.
  destruct (macos_afplay_error_escapes (macos_host (λ _, Some PermissionError))
              "success" "/System/Library/Sounds/Hero.aiff" PermissionError)
    as [Hplay Hmain].
  - reflexivity.
  - reflexivity.
  - reflexivity.
  - split; [exact Hplay|]. apply Hmain. reflexivity.
Defined.

(** X3. On macOS the [osascript] fall-back is not guarded.  When [afplay] is
    missing, the outcome of [play_sound_macos] is the answer of the
    [osascript] call: if that raises too (the executable is missing as well)
    the exception leaves the function, and the whole run ends after the two
    attempts with nothing written to standard output. *)
Theorem macos_osascript_error_escapes (w : world) (sound_type : string)
    (sound_file : string) (e : exn) :
  sound_file = (if bool_decide (sound_type = "success")
                then "/System/Library/Sounds/Hero.aiff"
                else "/System/Library/Sounds/Blow.aiff") →
  missing (host_run w ["afplay"; sound_file]) = true →
  host_run w ["osascript"; "-e"; "beep 1"] = Some e →
  play_sound_macos sound_type w [] =
    (Raise e, [ERun ["afplay"; sound_file]; ERun ["osascript"; "-e"; "beep 1"]]) ∧
  (host_system w = "Darwin" →
   ∀ script,
     run_script [script; sound_type] w =
       (Ret (), [ERun ["afplay"; sound_file]; ERun ["osascript"; "-e"; "beep 1"]]) ∧
     stdout_of (run_script [script; sound_type] w).2 = EmptyString).
Proof.
  intros Hfile Hmiss Hosa.
  assert (play_sound_macos sound_type w [] =
          (Raise e, [ERun ["afplay"; sound_file];
                     ERun ["osascript"; "-e"; "beep 1"]])) as Hplay.
  { rewrite run_play_sound_macos. simpl. rewrite <- Hfile.
    unfold missing in Hmiss.
    destruct (host_run w ["afplay"; sound_file]) as [e'|]; [|done].
    by rewrite Hmiss, Hosa. }
  split; [done|]. intros Hsys script. unfold run_script.
  rewrite run_main, try_except_Exception_pass, Hsys. simpl. by rewrite Hplay.
Qed.

Lemma macos_osascript_error_escapes_witness :
  play_sound_macos "prompt" (bare_host "Darwin") [] =
    (Raise FileNotFoundError,
     [ERun ["afplay"; "/System/Library/Sounds/Blow.aiff"];
      ERun ["osascript"; "-e"; "beep 1"]]) ∧
  run_script ["play-sound.py"; "prompt"] (bare_host "Darwin") =
    (Ret (), [ERun ["afplay"; "/System/Library/Sounds/Blow.aiff"];
              ERun ["osascript"; "-e"; "beep 1"]]) ∧
  stdout_of (run_script ["play-sound.py"; "prompt"] (bare_host "Darwin")).2 =
    EmptyString.
Proof.
  destruct (macos_osascript_error_escapes (bare_host "Darwin") "prompt"
              "/System/Library/Sounds/Blow.aiff" FileNotFoundError)
    as [Hplay Hmain].
  - reflexivity.
  - reflexivity.
  - reflexivity.
  - split; [exact Hplay|]. apply Hmain. reflexivity.
Defined.

(** ** The Linux strategy *)

(** X4. On Linux a player is only run on a candidate of the sound type that
    [os.path.exists] found, and [aplay] is only run on a file on which
    [paplay] was missing. *)
Theorem linux_player_needs_existing_file (w : world) (sound_type : string) (p : string) :
  (ERun ["paplay"; p] ∈ (play_sound_linux sound_type w []).2 →
   p ∈ linux_candidates sound_type ∧ host_exists w p = true) ∧
  (ERun ["aplay"; "-q"; p] ∈ (play_sound_linux sound_type w []).2 →
   p ∈ linux_candidates sound_type ∧ host_exists w p = true ∧
   missing (host_run w ["paplay"; p]) = true).
Proof.
  split; intros Hev; apply linux_event_origin in Hev
    as [(q & Hq & [Heq|[Hex [Heq|[Heq Hpa]]]])|[Heq|Heq]];
    try discriminate Heq; by simplify_eq.
Qed.

Lemma linux_player_needs_existing_file_witness :
  "/usr/share/sounds/freedesktop/stereo/message.oga" ∈ linux_candidates "success" ∧
  host_exists aplay_host "/usr/share/sounds/freedesktop/stereo/message.oga" = true ∧
  missing (host_run aplay_host
             ["paplay"; "/usr/share/sounds/freedesktop/stereo/message.oga"]) = true.
Proof.
  apply (linux_player_needs_existing_file aplay_host "success"
           "/usr/share/sounds/freedesktop/stereo/message.oga").
  assert ((play_sound_linux "success" aplay_host []).2 =
          [ EExists "/usr/share/sounds/freedesktop/stereo/complete.oga";
            EExists "/usr/share/sounds/freedesktop/stereo/message.oga";
            ERun ["paplay"; "/usr/share/sounds/freedesktop/stereo/message.oga"];
            ERun ["aplay"; "-q"; "/usr/share/sounds/freedesktop/stereo/message.oga"] ])
    as Htrace by (vm_compute; reflexivity).
  rewrite Htrace. do 3 right. left.
Defined.

(** X5. On Linux the files probed are candidates of the sound type, probed
    in the order of the two loops, each at most once and without gaps: the
    probes of a run are a prefix of the candidate list. *)
Theorem linux_probes_prefix_of_candidates (w : world) (sound_type : string) :
  probes (play_sound_linux sound_type w []).2 `prefix_of` linux_candidates sound_type.
Proof.
  destruct (linux_cases w sound_type)
    as [[Hall ->]|(pre & p & post & -> & Hpre & Hp & ->)]; simpl.
  - rewrite probes_app, probes_passing.
    replace (probes _) with (@nil string) by (simpl; by destruct (missing _)).
    by rewrite app_nil_r.
  - rewrite probes_app, probes_passing. unfold player_events.
    exists post. destruct (missing _); simpl; by rewrite <- app_assoc.
Qed.

(** X6. On a Linux host with neither [paplay] nor [aplay], the sound files
    do not matter: every candidate is probed, both players are tried on each
    one that exists, and the run always goes on to [beep], then to the bell
    when [beep] is missing too. *)
Theorem linux_no_player_falls_back (w : world) (sound_type : string) :
  (∀ p, missing (host_run w ["paplay"; p]) = true) →
  (∀ p, missing (host_run w ["aplay"; "-q"; p]) = true) →
  (play_sound_linux sound_type w []).2 =
    (linux_candidates sound_type ≫= passing_events w) ++
    ERun ["beep"; "-f"; "800"; "-l"; "100"] ::
    (if missing (host_run w ["beep"; "-f"; "800"; "-l"; "100"])
     then [EPrint (String "007"%char EmptyString) EmptyString true]
     else []) ∧
  probes (play_sound_linux sound_type w []).2 = linux_candidates sound_type.
Proof.
  intros Hpa Hap.
  destruct (linux_cases w sound_type)
    as [[Hall ->]|(pre & p & post & Hl & Hpre & Hp & _)].
  - split; [done|]. simpl. rewrite probes_app, probes_passing.
    replace (probes _) with (@nil string) by (simpl; by destruct (missing _)).
    by rewrite app_nil_r.
  - apply passed_over_false in Hp as [_ Hp]. by rewrite Hpa, Hap in Hp.
Qed.

Lemma linux_no_player_falls_back_witness :
  (play_sound_linux "prompt" no_player_host []).2 =
    (linux_candidates "prompt" ≫= passing_events no_player_host) ++
    [ERun ["beep"; "-f"; "800"; "-l"; "100"];
     EPrint (String "007"%char EmptyString) EmptyString true] ∧
  probes (play_sound_linux "prompt" no_player_host []).2 = linux_candidates "prompt".
Proof.
  apply (linux_no_player_falls_back no_player_host "prompt").
  - intros p. reflexivity.
  - intros p. reflexivity.
Defined.

(** What a Linux run writes, by the way its loops end. *)
Lemma linux_stdout (w : world) (sound_type : string) :
  ((∀ q, q ∈ linux_candidates sound_type → passed_over w q = true) ∧
   missing (host_run w beep_argv) = true ∧
   stdout_of (play_sound_linux sound_type w []).2 = BEL) ∨
  (¬ ((∀ q, q ∈ linux_candidates sound_type → passed_over w q = true) ∧
      missing (host_run w beep_argv) = true) ∧
   stdout_of (play_sound_linux sound_type w []).2 = EmptyString).
Proof.
  destruct (linux_cases w sound_type)
    as [[Hall ->]|(pre & p & post & Hl & Hpre & Hp & ->)]; simpl.
  - rewrite stdout_of_app_silent by apply stdout_of_passing.
    destruct (missing (host_run w beep_argv)); simpl.
    + by left.
    + right. split; [|done]. intros [_ ?]. discriminate.
  - rewrite stdout_of_app_silent by apply stdout_of_passing.
    assert (stdout_of (EExists p :: player_events w p) = EmptyString) as ->
      by (unfold player_events; simpl; by destruct (missing _)).
    right. split; [|done]. intros [Hall _].
    rewrite Hall in Hp; [discriminate|]. rewrite Hl. apply elem_of_app. right. left.
Qed.

(** X7. On Linux the bell reaches standard output exactly when every
    candidate was passed over (its file does not exist, or exists with both
    players missing) and [beep] is missing. *)
Theorem linux_bell_iff (w : world) (sound_type : string) :
  stdout_of (play_sound_linux sound_type w []).2 = String "007"%char EmptyString ↔
  (∀ q, q ∈ linux_candidates sound_type → passed_over w q = true) ∧
  missing (host_run w ["beep"; "-f"; "800"; "-l"; "100"]) = true.
Proof.
  destruct (linux_stdout w sound_type) as [(Hall & Hbeep & ->)|[Hnot ->]].
  - done.
  - split; [discriminate|]. intros H. by destruct Hnot.
Qed.

(** ** The Windows strategy *)

(** Every trace of the Windows strategy, by the answers of the host. *)
Lemma windows_traces (w : world) (sound_type : string) :
  ∃ f d,
    (f, d) = (if bool_decide (sound_type = "success")
              then (1000, 100) else (800, 150)) ∧
    (play_sound_windows sound_type w []).2 ∈
      [ [EImport "winsound"];
        [EImport "winsound"; EImport "winsound"; EPrint BEL EmptyString true];
        [EImport "winsound"; EImport "winsound"; EMessageBeep];
        [EImport "winsound"; EImport "winsound"; EMessageBeep;
         EPrint BEL EmptyString true];
        [EImport "winsound"; EBeep f d];
        [EImport "winsound"; EBeep f d; EImport "winsound";
         EPrint BEL EmptyString true];
        [EImport "winsound"; EBeep f d; EImport "winsound"; EMessageBeep];
        [EImport "winsound"; EBeep f d; EImport "winsound"; EMessageBeep;
         EPrint BEL EmptyString true] ].
Proof.
  rewrite run_play_sound_windows.
  set (tone := if bool_decide (sound_type = "success")
               then (1000, 100) else (800, 150)).
  exists tone.1, tone.2. split; [by destruct tone|].
  destruct (host_import_winsound w 0) as [e|].
  - destruct (isinstance e _); [|simpl; set_solver].
    rewrite run_windows_fallback.
    destruct (host_import_winsound w (imports_so_far _)); [simpl; set_solver|].
    destruct (host_MessageBeep w); simpl; set_solver.
  - destruct (host_Beep w tone.1 tone.2) as [e|]; [|simpl; set_solver].
    destruct (isinstance e _); [|simpl; set_solver].
    rewrite run_windows_fallback.
    destruct (host_import_winsound w (imports_so_far _)); [simpl; set_solver|].
    destruct (host_MessageBeep w); simpl; set_solver.
Qed.

(** X8. On Windows the handler of [except ImportError] (recognised by its
    second [import winsound]) runs exactly when the guarded block raised an
    [ImportError]: from the first import, or from the tone request. *)
Theorem windows_handler_only_after_ImportError (w : world) (sound_type : string) :
  (2 ≤ imports_so_far (play_sound_windows sound_type w []).2)%nat ↔
  ∃ e, isinstance e (Class ImportError) = true ∧
       (host_import_winsound w 0 = Some e ∨
        (host_import_winsound w 0 = None ∧
         (if bool_decide (sound_type = "success")
          then host_Beep w 1000 100 else host_Beep w 800 150) = Some e)).
Proof.
  assert (∀ tr, (imports_so_far tr < imports_so_far (windows_fallback w tr).2)%nat)
    as Hfallback.
  { intros tr. rewrite run_windows_fallback. unfold imports_so_far.
    destruct (host_import_winsound w _); [|destruct (host_MessageBeep w)];
      simpl; rewrite List.filter_app, length_app; simpl; lia. }
  rewrite run_play_sound_windows.
  destruct (host_import_winsound w 0) as [e|].
  - destruct (isinstance e (Class ImportError)) eqn:He.
    + split; [|intros _; apply (Hfallback [EImport "winsound"])].
      intros _. exists e. split; [done|by left].
    + split; [simpl; unfold imports_so_far; simpl; lia|].
      intros (e' & He' & [Heq|[Heq _]]); [|done]. congruence.
  - assert ((if bool_decide (sound_type = "success")
             then host_Beep w 1000 100 else host_Beep w 800 150) =
            host_Beep w
              (if bool_decide (sound_type = "success")
               then (1000, 100) else (800, 150)).1
              (if bool_decide (sound_type = "success")
               then (1000, 100) else (800, 150)).2) as -> by by case_bool_decide.
    destruct (host_Beep w _ _) as [e|].
    + destruct (isinstance e (Class ImportError)) eqn:He.
      * split; [|intros _; apply (Hfallback [EImport "winsound"; EBeep _ _])].
        intros _. exists e. split; [done|by right].
      * split; [simpl; unfold imports_so_far; simpl; lia|].
        intros (e' & He' & [Heq|[_ Heq]]); [done|]. congruence.
    + split; [simpl; unfold imports_so_far; simpl; lia|].
      intros (e' & He' & [Heq|[_ Heq]]); done.
Qed.

(** X9. On Windows an exception of [import winsound] that is not an
    [ImportError] is handled nowhere in [play_sound_windows]: it leaves the
    function right after the import, with no tone, no [MessageBeep] and no
    bell, and [main] drops it. *)
Theorem windows_import_error_escapes (w : world) (sound_type : string) (e : exn) :
  host_import_winsound w 0 = Some e →
  isinstance e (Class ImportError) = false →
  play_sound_windows sound_type w [] = (Raise e, [EImport "winsound"]) ∧
  (host_system w = "Windows" →
   ∀ script, run_script [script; sound_type] w = (Ret (), [EImport "winsound"])).
Proof.
  intros Himp He.
  assert (play_sound_windows sound_type w [] = (Raise e, [EImport "winsound"]))
    as Hplay by by rewrite run_play_sound_windows, Himp, He.
  split; [done|]. intros Hsys script. unfold run_script.
  rewrite run_main, try_except_Exception_pass, Hsys. simpl. by rewrite Hplay.
Qed.

Lemma windows_import_error_escapes_witness :
  play_sound_windows "prompt" (broken_import_host OSError) [] =
    (Raise OSError, [EImport "winsound"]) ∧
  run_script ["play-sound.py"; "prompt"] (broken_import_host OSError) =
    (Ret (), [EImport "winsound"]).
Proof.
  destruct (windows_import_error_escapes (broken_import_host OSError) "prompt" OSError)
    as [Hplay Hmain].
  - reflexivity.
  - reflexivity.
  - split; [exact Hplay|]. apply Hmain. reflexivity.
Defined.

(** ** The script as a whole *)

(** X10. [main] reads nothing of [sys.argv] but its second element: without
    it the sound type is ['prompt'], the script name does not matter, and
    arguments after the sound type are ignored. *)
Theorem main_reads_first_argument_only (w : world) (tr : list event)
    (script script' sound_type : string) (rest : list string) :
  main [] w tr = main [script; "prompt"] w tr ∧
  main [script'] w tr = main [script; "prompt"] w tr ∧
  main (script' :: sound_type :: rest) w tr = main [script; sound_type] w tr.
Proof. by rewrite !run_main. Qed.

(** The trace of a run is the trace of one strategy, or the lone bell. *)
Lemma run_script_trace (argv : list string) (w : world) :
  let sound_type := default "prompt" (argv !! 1%nat) in
  (run_script argv w).2 = (play_sound_macos sound_type w []).2 ∨
  (run_script argv w).2 = (play_sound_linux sound_type w []).2 ∨
  (run_script argv w).2 = (play_sound_windows sound_type w []).2 ∨
  (run_script argv w).2 = [EPrint BEL EmptyString true].
Proof.
  intros sound_type. unfold run_script.
  rewrite run_main, try_except_Exception_pass. fold sound_type.
  repeat case_bool_decide; auto.
Qed.

Lemma macos_traces (w : world) (sound_type : string) :
  ∃ sound_file,
    (play_sound_macos sound_type w []).2 = [ERun ["afplay"; sound_file]] ∨
    (play_sound_macos sound_type w []).2 =
      [ERun ["afplay"; sound_file]; ERun ["osascript"; "-e"; "beep 1"]].
Proof.
  rewrite run_play_sound_macos. eexists.
  destruct (host_run w _) as [e|]; [|by left].
  destruct (isinstance e _); [by right|by left].
Qed.

(** X11. Whatever the host and the arguments, standard output receives
    nothing, or the bell character alone. *)
Theorem script_writes_at_most_one_bell (argv : list string) (w : world) :
  stdout_of (run_script argv w).2 = EmptyString ∨
  stdout_of (run_script argv w).2 = String "007"%char EmptyString.
Proof.
  destruct (run_script_trace argv w) as [->|[->|[->| ->]]].
  - destruct (macos_traces w (default "prompt" (argv !! 1%nat))) as [f [-> | ->]];
      by left.
  - destruct (linux_stdout w (default "prompt" (argv !! 1%nat)))
      as [(_ & _ & ->)|[_ ->]]; auto.
  - destruct (windows_traces w (default "prompt" (argv !! 1%nat)))
      as (f & d & _ & Htr).
    repeat (apply elem_of_cons in Htr as [->|Htr]; [by auto|]).
    by apply elem_of_nil in Htr.
  - by right.
Qed.

Lemma linux_lengths (w : world) (sound_type : string) :
  (length (play_sound_linux sound_type w []).2 ≤ 29)%nat ∧
  (length (runs (play_sound_linux sound_type w []).2) ≤ 19)%nat.
Proof.
  pose proof (length_linux_candidates sound_type) as Hnine.
  destruct (linux_cases w sound_type)
    as [[Hall ->]|(pre & p & post & Hl & Hpre & Hp & ->)]; simpl.
  - pose proof (length_passing w (linux_candidates sound_type)).
    pose proof (length_runs_passing w (linux_candidates sound_type)).
    rewrite runs_app, !length_app.
    destruct (missing _); simpl; lia.
  - rewrite Hl, length_app in Hnine. simpl in Hnine.
    pose proof (length_passing w pre). pose proof (length_runs_passing w pre).
    rewrite runs_app, !length_app. unfold player_events.
    destruct (missing _); simpl; lia.
Qed.

(** X12. A run makes at most 29 calls on its host, at most 19 of them
    attempts to start a process; a Linux host with every sound file and no
    executable reaches both bounds. *)
Theorem script_bounded_attempts :
  (∀ (argv : list string) (w : world),
     (length (run_script argv w).2 ≤ 29)%nat ∧
     (length (runs (run_script argv w).2) ≤ 19)%nat) ∧
  (∃ (argv : list string) (w : world),
     length (run_script argv w).2 = 29%nat ∧
     length (runs (run_script argv w).2) = 19%nat).
Proof.
  split.
  - intros argv w.
    destruct (run_script_trace argv w) as [->|[->|[->| ->]]].
    + destruct (macos_traces w (default "prompt" (argv !! 1%nat))) as [f [-> | ->]];
        simpl; lia.
    + apply linux_lengths.
    + destruct (windows_traces w (default "prompt" (argv !! 1%nat)))
        as (f & d & _ & Htr).
      repeat (apply elem_of_cons in Htr as [->|Htr]; [simpl; lia|]).
      by apply elem_of_nil in Htr.
    + simpl. lia.
  - exists ["play-sound.py"; "success"], all_files_no_player_host.
    by vm_compute.
Qed.

(** X13. Each strategy keeps to the facilities of its platform: the macOS
    strategy only runs commands, the Linux strategy never touches [winsound],
    and the Windows strategy only uses [winsound] and the bell, so it neither
    probes a file nor starts a process. *)
Theorem strategies_keep_to_their_facilities (w : world) (sound_type : string) :
  Forall (λ ev, ∃ argv, ev = ERun argv) (play_sound_macos sound_type w []).2 ∧
  Forall (λ ev, uses_winsound ev = false) (play_sound_linux sound_type w []).2 ∧
  Forall (λ ev, uses_winsound ev = true ∨
                ev = EPrint (String "007"%char EmptyString) EmptyString true)
    (play_sound_windows sound_type w []).2.
Proof.
  split_and!.
  - destruct (macos_traces w sound_type) as [f [-> | ->]];
      repeat constructor; by eexists.
  - apply Forall_forall. intros ev Hev.
    apply linux_event_origin in Hev
      as [(q & Hq & [->|[Hex [->|[-> Hpa]]]])|[->| ->]]; done.
  - destruct (windows_traces w sound_type) as (f & d & _ & Htr).
    repeat (apply elem_of_cons in Htr as [->|Htr];
            [repeat constructor; by auto|]).
    by apply elem_of_nil in Htr.
Qed.

(** * The script under interrupts *)

(** ** Without an interrupt the two embeddings agree *)

Section quiet.
Context (p : Interruptible.process).
Hypothesis quiet : ∀ n, Interruptible.sigint p n = false.

Lemma quiet_ret {A} (a : A) (tr : list event) :
  (mret a : Interruptible.io A) p tr =
  lift ((mret a : io A) (Interruptible.host p) tr).
Proof using Type. reflexivity. Qed.

Lemma quiet_bind {A B} (m' : Interruptible.io A) (m : io A)
    (f' : A → Interruptible.io B) (f : A → io B) (tr : list event) :
  (∀ tr, m' p tr = lift (m (Interruptible.host p) tr)) →
  (∀ a tr, f' a p tr = lift (f a (Interruptible.host p) tr)) →
  (m' ≫= f') p tr = lift ((m ≫= f) (Interruptible.host p) tr).
Proof using Type.
  intros Hm Hf.
  change ((m' ≫= f') p tr) with
    (match m' p tr with
     | (Interruptible.Done a, tr') => f' a p tr'
     | (Interruptible.Raised r, tr') => (Interruptible.Raised r, tr')
     end).
  rewrite run_bind, Hm. unfold lift at 1.
  destruct (m (Interruptible.host p) tr) as [[a|e] tr']; simpl; [apply Hf|done].
Qed.

Lemma quiet_call {A} (ev : event) (answer : world → outcome A) (tr : list event) :
  Interruptible.call ev answer p tr = lift (call ev answer (Interruptible.host p) tr).
Proof using quiet. unfold Interruptible.call, call, lift. by rewrite quiet. Qed.

Lemma quiet_import_winsound (tr : list event) :
  Interruptible.import_winsound p tr =
  lift (import_winsound (Interruptible.host p) tr).
Proof using quiet.
  unfold Interruptible.import_winsound, import_winsound, lift. by rewrite quiet.
Qed.

Lemma quiet_try_except {A} (body' handler' : Interruptible.io A)
    (body handler : io A) (c : exn_class) (tr : list event) :
  (∀ tr, body' p tr = lift (body (Interruptible.host p) tr)) →
  (∀ tr, handler' p tr = lift (handler (Interruptible.host p) tr)) →
  Interruptible.try_except body' c handler' p tr =
  lift (try_except body c handler (Interruptible.host p) tr).
Proof using Type.
  intros Hb Hh. unfold Interruptible.try_except, try_except.
  rewrite Hb. unfold lift at 1.
  destruct (body (Interruptible.host p) tr) as [[a|e] tr']; simpl; [done|].
  destruct (isinstance e c); [apply Hh|done].
Qed.

Lemma quiet_getitem {V} (d : gmap string V) (k : string) (tr : list event) :
  Interruptible.getitem d k p tr = lift (getitem d k (Interruptible.host p) tr).
Proof using Type.
  unfold Interruptible.getitem, getitem, lift. by destruct (d !! k).
Qed.

Lemma quiet_list_getitem {V} (l : list V) (i : nat) (tr : list event) :
  Interruptible.list_getitem l i p tr =
  lift (list_getitem l i (Interruptible.host p) tr).
Proof using Type.
  unfold Interruptible.list_getitem, list_getitem, lift. by destruct (l !! i).
Qed.

Lemma quiet_subprocess_run (argv : list string) (tr : list event) :
  Interruptible.subprocess_run argv p tr =
  lift (subprocess_run argv (Interruptible.host p) tr).
Proof using quiet. apply quiet_call. Qed.

Lemma quiet_print (text end_ : string) (flush : bool) (tr : list event) :
  Interruptible.print text end_ flush p tr =
  lift (print text end_ flush (Interruptible.host p) tr).
Proof using quiet. apply quiet_call. Qed.

Lemma quiet_play_sound_macos (sound_type : string) (tr : list event) :
  Interruptible.play_sound_macos sound_type p tr =
  lift (play_sound_macos sound_type (Interruptible.host p) tr).
Proof using quiet.
  apply quiet_bind; [apply quiet_getitem|].
  intros dflt tr1. apply quiet_try_except; apply quiet_subprocess_run.
Qed.

Lemma quiet_try_players (full_path : string) (tr : list event) :
  Interruptible.try_players full_path p tr =
  lift (try_players full_path (Interruptible.host p) tr).
Proof using quiet.
  apply quiet_try_except.
  - intros tr1. apply quiet_bind; [apply quiet_subprocess_run|].
    intros. apply quiet_ret.
  - intros tr1. apply quiet_try_except.
    + intros tr2. apply quiet_bind; [apply quiet_subprocess_run|].
      intros. apply quiet_ret.
    + intros. apply quiet_ret.
Qed.

Lemma quiet_for_sound_file (base_path : string) (sounds : list string)
    (tr : list event) :
  Interruptible.for_sound_file base_path sounds p tr =
  lift (for_sound_file base_path sounds (Interruptible.host p) tr).
Proof using quiet.
  revert tr. induction sounds as [|f sounds IH]; intros tr; [done|].
  simpl. apply quiet_bind; [intros; apply quiet_call|].
  intros found tr1. apply quiet_bind.
  - intros tr2. destruct found; [apply quiet_try_players|apply quiet_ret].
  - intros [] tr2; [apply IH|apply quiet_ret].
Qed.

Lemma quiet_for_base_path (paths sounds : list string) (tr : list event) :
  Interruptible.for_base_path paths sounds p tr =
  lift (for_base_path paths sounds (Interruptible.host p) tr).
Proof using quiet.
  revert tr. induction paths as [|b paths IH]; intros tr; [done|].
  simpl. apply quiet_bind; [intros; apply quiet_for_sound_file|].
  intros [] tr1; [apply IH|apply quiet_ret].
Qed.

Lemma quiet_play_sound_linux (sound_type : string) (tr : list event) :
  Interruptible.play_sound_linux sound_type p tr =
  lift (play_sound_linux sound_type (Interruptible.host p) tr).
Proof using quiet.
  apply quiet_bind; [apply quiet_getitem|].
  intros dflt tr1. apply quiet_bind; [apply quiet_for_base_path|].
  intros [] tr2; [|apply quiet_ret].
  apply quiet_try_except; [apply quiet_subprocess_run|apply quiet_print].
Qed.

Lemma quiet_play_sound_windows (sound_type : string) (tr : list event) :
  Interruptible.play_sound_windows sound_type p tr =
  lift (play_sound_windows sound_type (Interruptible.host p) tr).
Proof using quiet.
  apply quiet_try_except.
  - intros tr1. apply quiet_bind; [apply quiet_import_winsound|].
    intros _ tr2. case_bool_decide; apply quiet_call.
  - intros tr1. apply quiet_try_except; [|apply quiet_print].
    intros tr2. apply quiet_bind; [apply quiet_import_winsound|].
    intros _ tr3. apply quiet_call.
Qed.

Lemma quiet_main (argv : list string) (tr : list event) :
  Interruptible.main argv p tr = lift (main argv (Interruptible.host p) tr).
Proof using quiet.
  apply quiet_bind.
  - intros tr1. case_bool_decide; [apply quiet_ret|apply quiet_list_getitem].
  - intros sound_type tr1. apply quiet_bind; [done|].
    intros system tr2. apply quiet_try_except; [|intros; apply quiet_ret].
    intros tr3. repeat case_bool_decide;
      auto using quiet_play_sound_macos, quiet_play_sound_linux,
                 quiet_play_sound_windows, quiet_print.
Qed.

End quiet.

(** ** [main] under interrupts *)

Lemma run_interruptible_main (argv : list string) (p : Interruptible.process)
    (tr : list event) :
  let sound_type := default "prompt" (argv !! 1%nat) in
  let system := host_system (Interruptible.host p) in
  Interruptible.main argv p tr =
  Interruptible.try_except
    (if bool_decide (system = "Darwin")
     then Interruptible.play_sound_macos sound_type
     else if bool_decide (system = "Linux")
     then Interruptible.play_sound_linux sound_type
     else if bool_decide (system = "Windows")
     then Interruptible.play_sound_windows sound_type
     else Interruptible.print BEL EmptyString true)
    Exception (mret ()) p tr.
Proof.
  intros sound_type system. unfold Interruptible.main.
  change (?m ≫= ?f) with (Interruptible.io_bind _ _ f m).
  unfold Interruptible.io_bind at 1.
  assert ((if bool_decide (length argv < 2)%nat
           then mret "prompt" else Interruptible.list_getitem argv 1) p tr =
          (Interruptible.Done sound_type, tr)) as ->.
  { subst sound_type. case_bool_decide as Hlen.
    - by rewrite lookup_ge_None_2 by lia.
    - unfold Interruptible.list_getitem.
      destruct (lookup_lt_is_Some_2 argv 1%nat) as [st ->]; [lia|done]. }
  reflexivity.
Qed.

(** What leaves [except Exception: pass]. *)
Lemma interruptible_try_except_Exception (body : Interruptible.io ())
    (p : Interruptible.process) (tr : list event) :
  Interruptible.try_except body Exception (mret ()) p tr =
  match body p tr with
  | (Interruptible.Raised Interruptible.KeyboardInterrupt, tr') =>
      (Interruptible.Raised Interruptible.KeyboardInterrupt, tr')
  | (_, tr') => (Interruptible.Done (), tr')
  end.
Proof.
  unfold Interruptible.try_except.
  by destruct (body p tr) as [[[]|[e|]] tr'].
Qed.

(** ** The text left in standard output *)

Lemma run_script_prints_only_bell (argv : list string) (w : world)
    (text end_ : string) (flush : bool) :
  EPrint text end_ flush ∈ (run_script argv w).2 →
  EPrint text end_ flush = EPrint BEL EmptyString true.
Proof.
  destruct (run_script_trace argv w) as [->|[->|[->| ->]]]; intros Hin.
  - destruct (macos_traces w (default "prompt" (argv !! 1%nat))) as [f [Htr|Htr]];
      rewrite Htr in Hin;
      repeat (apply elem_of_cons in Hin as [Hin|Hin]; [discriminate Hin|]);
      by apply elem_of_nil in Hin.
  - apply linux_event_origin in Hin
      as [(q & Hq & [Heq|[Hex [Heq|[Heq Hpa]]]])|[Heq|Heq]];
      done || discriminate Heq.
  - destruct (windows_traces w (default "prompt" (argv !! 1%nat)))
      as (f & d & _ & Htr).
    repeat (apply elem_of_cons in Htr as [Htr|Htr];
            [rewrite Htr in Hin;
             repeat (apply elem_of_cons in Hin as [Hin|Hin];
                     [done || discriminate Hin|]);
             by apply elem_of_nil in Hin|]).
    by apply elem_of_nil in Htr.
  - by apply list_elem_of_singleton in Hin.
Qed.

Lemma stdout_pending_bell (w : world) (tr : list event) :
  (∀ text end_ flush, EPrint text end_ flush ∈ tr →
                      EPrint text end_ flush = EPrint BEL EmptyString true) →
  Interruptible.stdout_pending w tr =
  bool_decide (EPrint BEL EmptyString true ∈ tr ∧ host_print w BEL ≠ None).
Proof.
  induction tr as [|ev tr IH]; intros Hbell.
  - symmetry. apply bool_decide_eq_false_2. intros [[]%elem_of_nil _].
  - assert (Interruptible.stdout_pending w tr =
            bool_decide (EPrint BEL EmptyString true ∈ tr ∧ host_print w BEL ≠ None))
      as IH' by (apply IH; intros; apply Hbell; by right).
    destruct ev as [| | | | |text end_ flush];
      try (cbn [Interruptible.stdout_pending]; rewrite IH'; apply bool_decide_ext;
           split; intros [Hin Hp]; (split; [|done]);
           [by right|by apply elem_of_cons in Hin as [?|?]]).
    assert (EPrint text end_ flush = EPrint BEL EmptyString true) as Heq
      by (apply Hbell; left).
    injection Heq as -> -> ->. cbn [Interruptible.stdout_pending]. rewrite IH'.
    change (BEL +:+ EmptyString) with BEL.
    destruct (host_print w BEL) as [e|].
    + rewrite (bool_decide_eq_true_2 (Some e ≠ None)) by done.
      symmetry. apply bool_decide_eq_true_2. split; [left|done].
    + rewrite (bool_decide_eq_false_2 (None ≠ None)) by (intros H; by apply H).
      cbn [orb]. apply bool_decide_ext. split; intros [_ H]; by destruct H.
Qed.

(** ** The outermost handler and the exit status *)

(** C1, as stated, fails, in two ways.  On macOS, when Ctrl-C arrives while
    the script waits for [afplay], the [KeyboardInterrupt] is caught neither
    by [except FileNotFoundError] nor by [except Exception]: it leaves [main]
    and the process ends by the interrupt signal.  On a Linux host without
    sound files and executables whose standard output cannot be written,
    [print] raises, [main] drops the exception and returns, and the flush of
    the interpreter at exit fails: the exit status is 120. *)
Lemma interrupt_and_exit_flush_leave_the_script :
  Interruptible.main ["play-sound.py"; "success"] ctrl_c_process [] =
    (Interruptible.Raised Interruptible.KeyboardInterrupt,
     [ERun ["afplay"; "/System/Library/Sounds/Hero.aiff"]]) ∧
  Interruptible.run_process ["play-sound.py"; "success"] ctrl_c_process =
    Interruptible.Killed_by_SIGINT ∧
  (Interruptible.main ["play-sound.py"; "prompt"] full_stdout_process []).1 =
    Interruptible.Done () ∧
  Interruptible.run_process ["play-sound.py"; "prompt"] full_stdout_process =
    Interruptible.Exit 120 ∧
  ¬ (∀ (argv : list string) (p : Interruptible.process),
       (Interruptible.main argv p []).1 = Interruptible.Done () ∧
       Interruptible.run_process argv p = Interruptible.Exit 0).
Proof.
  split_and!; [by vm_compute..|].
  intros Hclaim.
  destruct (Hclaim ["play-sound.py"; "success"] ctrl_c_process) as [Hmain _].
  vm_compute in Hmain. discriminate Hmain.
Qed.

(** C1, amended.  No exception that derives from [Exception] leaves [main]:
    the outermost handler catches it and drops it.  When no Ctrl-C arrives,
    [main] returns, after the calls of the undisturbed run, and the exit
    status is 0, unless the bell was printed, that [print] raised and the
    flush at exit fails as well: then it is 120. *)
Theorem main_drops_every_Exception (argv : list string) (p : Interruptible.process) :
  (∀ e, (Interruptible.main argv p []).1 ≠ Interruptible.Raised (Interruptible.Exn e)) ∧
  ((∀ n, Interruptible.sigint p n = false) →
   Interruptible.main argv p [] =
     (Interruptible.Done (), (run_script argv (Interruptible.host p)).2) ∧
   Interruptible.run_process argv p =
     if bool_decide
          (EPrint (String "007"%char EmptyString) EmptyString true
             ∈ (run_script argv (Interruptible.host p)).2 ∧
           host_print (Interruptible.host p) (String "007"%char EmptyString) ≠ None ∧
           Interruptible.exit_flush p ≠ None)
     then Interruptible.Exit 120
     else Interruptible.Exit 0).
Proof.
  split.
  - intros e. rewrite run_interruptible_main, interruptible_try_except_Exception.
    by destruct (_ p []) as [[[]|[e'|]] tr'].
  - intros Hquiet.
    assert (Interruptible.main argv p [] =
            (Interruptible.Done (), (run_script argv (Interruptible.host p)).2))
      as Hmain.
    { rewrite quiet_main by done. unfold lift, run_script.
      by rewrite run_main, try_except_Exception_pass. }
    split; [exact Hmain|].
    unfold Interruptible.run_process. rewrite Hmain.
    rewrite stdout_pending_bell by apply run_script_prints_only_bell.
    fold BEL. destruct (Interruptible.exit_flush p) as [e|].
    + case_bool_decide as Hpending.
      * rewrite bool_decide_eq_true_2; [done|]. by destruct Hpending.
      * rewrite bool_decide_eq_false_2; [done|]. intros (? & ? & _). by apply Hpending.
    + rewrite (bool_decide_eq_false_2 (_ ∧ _ ∧ None ≠ None)).
      * by case_bool_decide.
      * intros (_ & _ & H). by apply H.
Qed.

Lemma main_drops_every_Exception_witness :
  Interruptible.main ["play-sound.py"; "prompt"]
      (undisturbed (bare_host "Linux") None) [] =
    (Interruptible.Done (),
     (run_script ["play-sound.py"; "prompt"] (bare_host "Linux")).2) ∧
  Interruptible.run_process ["play-sound.py"; "prompt"]
      (undisturbed (bare_host "Linux") None) =
    Interruptible.Exit 0.
Proof.
  destruct (main_drops_every_Exception ["play-sound.py"; "prompt"]
              (undisturbed (bare_host "Linux") None)) as [_ Hquiet].
  destruct Hquiet as [Hmain Hexit].
  - intros n. reflexivity.
  - split; [exact Hmain|]. rewrite Hexit. reflexivity.
Defined.
